(** * Document search of sloppysource: the match engine of
    [src/components/DocumentSearchModal.tsx]

    The development embeds [searchMarkdownLines], [searchByRegex],
    [searchBySubstring], [createPreview], [hasWordBoundaries] and
    [isWordCharacter].  A JavaScript string is the list of its UTF-16 code
    units; a JavaScript number that the code uses as an index or a counter
    is an integer of [Z] (the code relies on the value [-1] in several
    places).  What the code takes from the JavaScript runtime and not from
    the repository (Unicode tables, [toLowerCase], [RegExp]) is collected in
    the record [Host]. *)

From Stdlib Require Import String Ascii.
From Stdlib Require Import ZArith NArith List Bool Lia Sorted.
Import ListNotations.

#[local] Open Scope Z_scope.

(** ** Strings *)

Module Js.

Definition codeunit := N.
Definition jsstring := list codeunit.

(** An ASCII literal as a JavaScript string. *)
Fixpoint lit (s : string) : jsstring :=
  match s with
  | EmptyString => []
  | String a s' => N_of_ascii a :: lit s'
  end.

Arguments lit s%_string.

Definition len (s : jsstring) : Z := Z.of_nat (length s).

(** [String.prototype.slice(start, end)]: a negative argument counts from
    the end, both are clamped to the string. *)
Definition slice (s : jsstring) (start stop : Z) : jsstring :=
  let n := len s in
  let from := if start <? 0 then Z.max (n + start) 0 else Z.min start n in
  let to := if stop <? 0 then Z.max (n + stop) 0 else Z.min stop n in
  firstn (Z.to_nat (to - from)) (skipn (Z.to_nat from) s).

(** [s[i] ?? ""]: the one code unit string at [i], the empty string when
    [i] is not an index of [s]. *)
Definition charAtOrEmpty (s : jsstring) (i : Z) : jsstring :=
  if i <? 0 then []
  else match nth_error s (Z.to_nat i) with
       | Some c => [c]
       | None => []
       end.

Fixpoint startsWith (pat s : jsstring) : bool :=
  match pat, s with
  | [], _ => true
  | _ :: _, [] => false
  | p :: pat', c :: s' => N.eqb p c && startsWith pat' s'
  end.

(** The search of [indexOf] over the suffix [s] that starts at index [k]. *)
Fixpoint indexOfFrom (pat s : jsstring) (k : Z) : Z :=
  if startsWith pat s then k
  else match s with
       | [] => -1
       | _ :: s' => indexOfFrom pat s' (k + 1)
       end.

(** [String.prototype.indexOf(pat, position)]: the position is clamped to
    the string, the answer is the least index at or after it where [pat]
    occurs, [-1] when there is none. *)
Definition indexOf (s pat : jsstring) (position : Z) : Z :=
  let start := Z.min (Z.max position 0) (len s) in
  indexOfFrom pat (skipn (Z.to_nat start) s) start.

(** White space and line terminators of ECMAScript, as
    [String.prototype.trim] strips them. *)
Definition isWhiteSpace (c : codeunit) : bool :=
  ((9 <=? c) && (c <=? 13) || (c =? 32) || (c =? 160) || (c =? 5760)
   || (8192 <=? c) && (c <=? 8202) || (c =? 8232) || (c =? 8233)
   || (c =? 8239) || (c =? 8287) || (c =? 12288) || (c =? 65279))%N.

Fixpoint trimStart (s : jsstring) : jsstring :=
  match s with
  | c :: s' => if isWhiteSpace c then trimStart s' else s
  | [] => []
  end.

Definition trim (s : jsstring) : jsstring :=
  rev (trimStart (rev (trimStart s))).

End Js.

Import Js.

(** ** The runtime the code calls *)

(** [toLowerCase] and the Unicode general categories [\p{L}] and [\p{N}] are
    tables of the runtime; [RegExp_new source flags] is [new RegExp], [None]
    when it throws; [RegExp_match r s i] is the search of a compiled pattern
    in [s] from index [i] on: the index of the leftmost match and the matched
    text [result[0]]. *)
Record Host : Type := {
  toLowerCase : jsstring -> jsstring;
  unicode_L : codeunit -> bool;
  unicode_N : codeunit -> bool;
  regexp : Type;
  RegExp_new : jsstring -> jsstring -> option regexp;
  RegExp_match : regexp -> jsstring -> Z -> option (Z * jsstring)
}.

(** What ECMAScript guarantees of a match: it starts at or after the index
    the search started from and it lies inside the string. *)
Definition match_in_bounds (H : Host) : Prop :=
  forall r s i index text,
    RegExp_match H r s i = Some (index, text) ->
    i <= index /\ index + len text <= len s.

(** ** Data model (lines 10-32) *)

Record SearchOptions : Type := {
  caseSensitive : bool;
  wholeWord : bool;
  regex : bool
}.

Record LineMatch : Type := {
  lineNumber : Z;
  occurrences : Z;
  preview : jsstring
}.

Record SearchResult : Type := {
  matches : list LineMatch;
  totalOccurrences : Z;
  totalMatchedLines : Z;
  isTruncated : bool;
  errorMessage : option jsstring
}.

Definition MAX_MATCH_LINES : Z := 500.
Definition SNIPPET_PADDING : Z := 40.

(** ** createPreview (lines 440-458) *)

Definition createPreview (line : jsstring) (index matchLength : Z) : jsstring :=
  match line with
  | [] => lit "(empty line)"
  | _ =>
    let safeIndex := Z.max 0 index in
    let safeLength := Z.max 1 matchLength in
    let sliceStart := Z.max 0 (safeIndex - SNIPPET_PADDING) in
    let sliceEnd := Z.min (len line) (safeIndex + safeLength + SNIPPET_PADDING) in
    let prefix := if 0 <? sliceStart then lit "..." else [] in
    let suffix := if sliceEnd <? len line then lit "..." else [] in
    prefix ++ slice line sliceStart sliceEnd ++ suffix
  end.

(** ** Word boundaries (lines 460-476) *)

Section WithHost.

Variable H : Host.

(** The class [[\p{L}\p{N}_]] on one code unit. *)
Definition wordClass (c : codeunit) : bool :=
  unicode_L H c || unicode_N H c || (c =? 95)%N.

(** [/[\p{L}\p{N}_]/u.test(char)] after the guard on the empty string.
    [hasWordBoundaries] is the only caller and passes [line[i] ?? ""], the
    empty string or one code unit, so the class is tested on that code
    unit; half of a surrogate pair is given on its own. *)
Definition isWordCharacter (char : jsstring) : bool :=
  match char with
  | [] => false
  | _ => existsb wordClass char
  end.

Definition hasWordBoundaries (line : jsstring) (index matchLength : Z) : bool :=
  let charBefore := charAtOrEmpty line (index - 1) in
  let charAfter := charAtOrEmpty line (index + matchLength) in
  negb (isWordCharacter charBefore) && negb (isWordCharacter charAfter).

(** ** The scan of one line in substring mode (lines 383-406)

    The state of the [while] loop is [occurrences], [fromIndex] and
    [firstMatchIndex].  The loop is run on a fuel; [None] stands for a run
    that is not over when the fuel is. *)
Fixpoint substringWhile (fuel : nat) (line searchTarget normalizedQuery : jsstring)
    (whole : bool) (occ fromIndex firstMatchIndex : Z) : option (Z * Z) :=
  if fromIndex <? len searchTarget then
    match fuel with
    | O => None
    | S fuel' =>
      let foundIndex := indexOf searchTarget normalizedQuery fromIndex in
      if foundIndex =? -1 then Some (occ, firstMatchIndex)
      else
        let isWholeWordMatch :=
          negb whole || hasWordBoundaries line foundIndex (len normalizedQuery) in
        let occ' := if isWholeWordMatch then occ + 1 else occ in
        let first' :=
          if isWholeWordMatch && (firstMatchIndex =? -1) then foundIndex
          else firstMatchIndex in
        substringWhile fuel' line searchTarget normalizedQuery whole
          occ' (foundIndex + Z.max 1 (len normalizedQuery)) first'
    end
  else Some (occ, firstMatchIndex).

(** ** The scan of one line in regex mode (lines 318-338) *)

(** [regex.exec(line)] for a pattern compiled with the [g] flag, as
    ECMAScript defines it: the search starts at [lastIndex]; a failure
    (also when [lastIndex] is beyond the line) resets [lastIndex] to [0], a
    match leaves it at the end of the match.  The second component is the
    new [lastIndex]. *)
Definition exec (r : regexp H) (line : jsstring) (lastIndex : Z)
    : option (Z * jsstring) * Z :=
  if len line <? lastIndex then (None, 0)
  else match RegExp_match H r line lastIndex with
       | None => (None, 0)
       | Some (index, text) => (Some (index, text), index + len text)
       end.

(** The [while (result)] loop; its state is [occurrences],
    [firstMatchIndex], [firstMatchLength], [result] and [regex.lastIndex]. *)
Fixpoint regexWhile (fuel : nat) (r : regexp H) (line : jsstring)
    (occ firstMatchIndex firstMatchLength : Z)
    (result : option (Z * jsstring)) (lastIndex : Z) : option (Z * Z * Z) :=
  match result with
  | None => Some (occ, firstMatchIndex, firstMatchLength)
  | Some (index, text) =>
    match fuel with
    | O => None
    | S fuel' =>
      let first' := if firstMatchIndex =? -1 then index else firstMatchIndex in
      let firstLen' :=
        if firstMatchIndex =? -1 then Z.max 1 (len text) else firstMatchLength in
      let lastIndex' :=
        match text with [] => lastIndex + 1 | _ => lastIndex end in
      let '(result', lastIndex'') := exec r line lastIndex' in
      regexWhile fuel' r line (occ + 1) first' firstLen' result' lastIndex''
    end
  end.

(** ** The loop over the lines and the result (lines 316-369, 380-437)

    Both search functions run the same loop around their scan of a line:
    skip a line without occurrence, return the truncated result when
    [matches] is full, push the line otherwise, and sum up at the end.
    [scanLine] gives [occurrences], the index of the first match and the
    match length handed to [createPreview]; [lines] is what is left of the
    array from [index] on. *)
Definition truncatedResult (ms : list LineMatch) : SearchResult :=
  {| matches := ms; totalOccurrences := -1; totalMatchedLines := -1;
     isTruncated := true; errorMessage := None |}.

Definition completeResult (ms : list LineMatch) : SearchResult :=
  {| matches := ms;
     totalOccurrences := fold_left (fun sum m => sum + occurrences m) ms 0;
     totalMatchedLines := Z.of_nat (length ms);
     isTruncated := false; errorMessage := None |}.

Fixpoint forLines (scanLine : jsstring -> option (Z * Z * Z))
    (lines : list jsstring) (index : Z) (ms : list LineMatch)
    : option SearchResult :=
  match lines with
  | [] => Some (completeResult ms)
  | line :: rest =>
    match scanLine line with
    | None => None
    | Some (occ, firstMatchIndex, matchLength) =>
      if occ =? 0 then forLines scanLine rest (index + 1) ms
      else if MAX_MATCH_LINES <=? Z.of_nat (length ms) then
        Some (truncatedResult ms)
      else
        forLines scanLine rest (index + 1)
          (ms ++ [ {| lineNumber := index + 1; occurrences := occ;
                      preview := createPreview line firstMatchIndex matchLength |} ])
    end
  end.

(** ** searchBySubstring (lines 372-438) *)

Definition substringScanLine (query normalizedQuery : jsstring)
    (options : SearchOptions) (line : jsstring) : option (Z * Z * Z) :=
  let searchTarget := if caseSensitive options then line else toLowerCase H line in
  match substringWhile (length searchTarget) line searchTarget normalizedQuery
          (wholeWord options) 0 0 (-1) with
  | Some (occ, firstMatchIndex) => Some (occ, firstMatchIndex, len query)
  | None => None
  end.

Definition searchBySubstring (lines : list jsstring) (query : jsstring)
    (options : SearchOptions) : option SearchResult :=
  let normalizedQuery :=
    if caseSensitive options then query else toLowerCase H query in
  forLines (substringScanLine query normalizedQuery options) lines 0 [].

(** ** searchByRegex (lines 293-370) *)

Definition regexFlags (options : SearchOptions) : jsstring :=
  if caseSensitive options then lit "g" else lit "gi".

Definition regexSource (query : jsstring) (options : SearchOptions) : jsstring :=
  if wholeWord options then lit "\b(?:" ++ query ++ lit ")\b" else query.

Definition invalidPattern : SearchResult :=
  {| matches := []; totalOccurrences := 0; totalMatchedLines := 0;
     isTruncated := false;
     errorMessage := Some (lit "Invalid regular expression.") |}.

Definition regexScanLine (r : regexp H) (line : jsstring) : option (Z * Z * Z) :=
  let '(result, lastIndex) := exec r line 0 in
  regexWhile (S (length line)) r line 0 (-1) 0 result lastIndex.

Definition searchByRegex (lines : list jsstring) (query : jsstring)
    (options : SearchOptions) : option SearchResult :=
  match RegExp_new H (regexSource query options) (regexFlags options) with
  | None => Some invalidPattern
  | Some r => forLines (regexScanLine r) lines 0 []
  end.

(** ** searchMarkdownLines (lines 271-291) and its call (lines 71-74) *)

Definition idleResult : SearchResult :=
  {| matches := []; totalOccurrences := 0; totalMatchedLines := 0;
     isTruncated := false; errorMessage := None |}.

Definition searchMarkdownLines (lines : list jsstring) (query : jsstring)
    (options : SearchOptions) : option SearchResult :=
  match query with
  | [] => Some idleResult
  | _ =>
    if regex options then searchByRegex lines query options
    else searchBySubstring lines query options
  end.

(** The component hands the trimmed query to [searchMarkdownLines]. *)
Definition search (lines : list jsstring) (query : jsstring)
    (options : SearchOptions) : option SearchResult :=
  searchMarkdownLines lines (trim query) options.

End WithHost.

(** ** A reference host

    An instance of [Host] on which the model runs.  It covers text of the
    Basic Latin and Latin-1 Supplement blocks (code units below 256; other
    code units are left as they are by [toLowerCase] and belong to neither
    category) and a fragment of the pattern language of ECMAScript: literal
    code units, [.], [*], [|], groups [( )] and [(?: )], the assertion [\b],
    and a backslash before a syntax character.  A source outside the fragment
    is refused like an ill-formed one, so the examples stay inside it. *)
Module Ref.

#[local] Open Scope N_scope.

Definition inRange (lo hi c : codeunit) : bool := ((lo <=? c) && (c <=? hi))%N.

(** General category L below 256. *)
Definition isLetter (c : codeunit) : bool :=
  inRange 65 90 c || inRange 97 122 c || (c =? 170)%N || (c =? 181)%N
  || (c =? 186)%N || inRange 192 214 c || inRange 216 246 c || inRange 248 255 c.

(** General category N below 256. *)
Definition isNumber (c : codeunit) : bool :=
  inRange 48 57 c || inRange 178 179 c || (c =? 185)%N || inRange 188 190 c.

Definition lowerUnit (c : codeunit) : codeunit :=
  if inRange 65 90 c || inRange 192 214 c || inRange 216 222 c then (c + 32)%N
  else c.

Definition toLowerCase (s : jsstring) : jsstring := map lowerUnit s.

Inductive pattern : Type :=
| Empty
| Unit (c : codeunit)
| AnyUnit
| WordBoundary
| Seq (p q : pattern)
| Alt (p q : pattern)
| Star (p : pattern).

(** The syntax characters of a pattern. *)
Definition isSyntaxCharacter (c : codeunit) : bool :=
  existsb (N.eqb c) (lit "^$\.*+?()[]{}|").

(** Recursive descent on a fuel: a disjunction, an alternative (the
    terms up to [|], [)] or the end) and a term.  Each gives the pattern
    read and the rest of the source. *)
Fixpoint parseDisjunction (fuel : nat) (s : jsstring) : option (pattern * jsstring) :=
  match fuel with
  | O => None
  | S f =>
    match parseAlternative f s with
    | Some (p, 124%N :: s') =>
      match parseDisjunction f s' with
      | Some (q, s'') => Some (Alt p q, s'')
      | None => None
      end
    | other => other
    end
  end
with parseAlternative (fuel : nat) (s : jsstring) : option (pattern * jsstring) :=
  match fuel with
  | O => None
  | S f =>
    match s with
    | [] => Some (Empty, s)
    | 124%N :: _ => Some (Empty, s)
    | 41%N :: _ => Some (Empty, s)
    | _ =>
      match parseTerm f s with
      | Some (p, s') =>
        match parseAlternative f s' with
        | Some (q, s'') => Some (Seq p q, s'')
        | None => None
        end
      | None => None
      end
    end
  end
with parseTerm (fuel : nat) (s : jsstring) : option (pattern * jsstring) :=
  match fuel with
  | O => None
  | S f =>
    let quantified (a : pattern) (s' : jsstring) :=
      match s' with
      | 42%N :: s'' => Some (Star a, s'')
      | _ => Some (a, s')
      end in
    let group (s' : jsstring) :=
      match parseDisjunction f s' with
      | Some (p, 41%N :: s'') => quantified p s''
      | _ => None
      end in
    match s with
    | 92%N :: 98%N :: s' =>
      match s' with
      | 42%N :: _ => None
      | _ => Some (WordBoundary, s')
      end
    | 92%N :: c :: s' => if isSyntaxCharacter c then quantified (Unit c) s' else None
    | 40%N :: 63%N :: 58%N :: s' => group s'
    | 40%N :: 63%N :: _ => None
    | 40%N :: s' => group s'
    | 46%N :: s' => quantified AnyUnit s'
    | c :: s' => if isSyntaxCharacter c then None else quantified (Unit c) s'
    | [] => None
    end
  end.

Definition parse (source : jsstring) : option pattern :=
  match parseDisjunction (3 * length source + 3)%nat source with
  | Some (p, []) => Some p
  | _ => None
  end.

(** Canonicalisation of a code unit under the [i] flag (no [u] flag). *)
Definition canonicalize (c : codeunit) : codeunit :=
  if inRange 97 122 c || inRange 224 246 c || inRange 248 254 c then (c - 32)%N
  else if (c =? 181)%N then 924%N
  else if (c =? 255)%N then 376%N
  else c.

Definition sameUnit (ignoreCase : bool) (c d : codeunit) : bool :=
  if ignoreCase then (canonicalize c =? canonicalize d)%N else (c =? d)%N.

(** The word characters of [\b]: [A-Z], [a-z], [0-9] and [_]. *)
Definition isWordChar (c : codeunit) : bool :=
  inRange 65 90 c || inRange 97 122 c || inRange 48 57 c || (c =? 95)%N.

Definition wordAt (s : jsstring) (i : nat) : bool :=
  match nth_error s i with
  | Some c => isWordChar c
  | None => false
  end.

Definition isLineTerminator (c : codeunit) : bool :=
  ((c =? 10) || (c =? 13) || (c =? 8232) || (c =? 8233))%N.

(** Backtracking matcher in continuation style: [matchAt ic p s i k] is
    the end of the first way to match [p] at [i] that [k] accepts.  An
    iteration of a star that consumes nothing is refused. *)
Fixpoint matchAt (ic : bool) (p : pattern) (s : jsstring) (i : nat)
    (k : nat -> option nat) : option nat :=
  match p with
  | Empty => k i
  | Unit c =>
    match nth_error s i with
    | Some d => if sameUnit ic c d then k (S i) else None
    | None => None
    end
  | AnyUnit =>
    match nth_error s i with
    | Some d => if isLineTerminator d then None else k (S i)
    | None => None
    end
  | WordBoundary =>
    let before := match i with O => false | S j => wordAt s j end in
    if xorb before (wordAt s i) then k i else None
  | Seq p1 p2 => matchAt ic p1 s i (fun j => matchAt ic p2 s j k)
  | Alt p1 p2 =>
    match matchAt ic p1 s i k with
    | Some e => Some e
    | None => matchAt ic p2 s i k
    end
  | Star p1 =>
    (fix iterate (n : nat) (i : nat) : option nat :=
       match n with
       | O => k i
       | S n' =>
         match matchAt ic p1 s i
                 (fun j => if (j <=? i)%nat then None else iterate n' j) with
         | Some e => Some e
         | None => k i
         end
       end) (S (length s)) i
  end.

(** The leftmost match at [i], [i + 1], ..., [i + n]. *)
Fixpoint searchFrom (n : nat) (ic : bool) (p : pattern) (s : jsstring) (i : nat)
    : option (nat * nat) :=
  match matchAt ic p s i Some with
  | Some e => Some (i, e)
  | None =>
    match n with
    | O => None
    | S n' => searchFrom n' ic p s (S i)
    end
  end.

Definition regexp : Type := bool * pattern.

Definition RegExp_new (source flags : jsstring) : option regexp :=
  match parse source with
  | Some p => Some (existsb (N.eqb 105) flags, p)
  | None => None
  end.

Definition RegExp_match (r : regexp) (s : jsstring) (i : Z) : option (Z * jsstring) :=
  if ((i <? 0) || (len s <? i))%Z then None
  else
    match searchFrom (length s - Z.to_nat i)%nat (fst r) (snd r) s (Z.to_nat i) with
    | Some (index, e) =>
      Some (Z.of_nat index, firstn (e - index)%nat (skipn index s))
    | None => None
    end.

Definition host : Host :=
  Build_Host toLowerCase isLetter isNumber regexp RegExp_new RegExp_match.

End Ref.

Definition opts (cs ww re : bool) : SearchOptions :=
  {| caseSensitive := cs; wholeWord := ww; regex := re |}.


(** ** Specification side: the window of a preview *)

(** The marker of a side of the line that the window leaves out. *)
Definition ellipsisFor (cut : jsstring) : jsstring :=
  match cut with
  | [] => []
  | _ => lit "..."
  end.

(** Start and end of the window around the span of [matchLength] code units
    at [index]; an index below [0] counts as [0], a length below [1] as [1]. *)
Definition windowStart (index : Z) : Z :=
  Z.max 0 (Z.max 0 index - 40).

Definition windowEnd (line : jsstring) (index matchLength : Z) : Z :=
  Z.min (len line) (Z.max 0 index + Z.max 1 matchLength + 40).

(** ** Specification side: occurrences of a query in a line *)

(** [q] occurs in [s] at [p]: the [len q] code units of [s] from [p] on are
    those of [q]. *)
Definition occursAt (s q : jsstring) (p : Z) : Prop :=
  0 <= p /\ firstn (length q) (skipn (Z.to_nat p) s) = q.

(** The scan of the specification: from [from] on, take the leftmost
    occurrence [p], resume at [p + max(1, len q)], until no occurrence is
    left.  [GreedyScan s q from ps] says that [ps] are the positions so
    found, in order. *)
Inductive GreedyScan (s q : jsstring) : Z -> list Z -> Prop :=
| scan_done (from : Z) :
    (forall p, from <= p -> ~ occursAt s q p) ->
    GreedyScan s q from []
| scan_hit (from p : Z) (ps : list Z) :
    from <= p ->
    occursAt s q p ->
    (forall k, from <= k < p -> ~ occursAt s q k) ->
    GreedyScan s q (p + Z.max 1 (len q)) ps ->
    GreedyScan s q from (p :: ps).

(** The code unit of [s] at [i], if [i] is an index of [s]. *)
Definition unitAt (s : jsstring) (i : Z) : option codeunit :=
  if i <? 0 then None else nth_error s (Z.to_nat i).

(** A word character: a Unicode letter, a Unicode digit or the underscore;
    no character (out of bounds) is not one. *)
Definition wordUnit (H : Host) (u : option codeunit) : Prop :=
  match u with
  | Some c => unicode_L H c = true \/ unicode_N H c = true \/ c = 95%N
  | None => False
  end.

(** Neither the character before the span of [n] code units at [p] nor the
    character after it is a word character. *)
Definition flankedByNonWord (H : Host) (line : jsstring) (p n : Z) : Prop :=
  ~ wordUnit H (unitAt line (p - 1)) /\ ~ wordUnit H (unitAt line (p + n)).

(** The candidates that count: all of them, or those at word boundaries. *)
Definition counted (H : Host) (line q : jsstring) (whole : bool) (ps : list Z)
    : list Z :=
  filter (fun p => negb whole || hasWordBoundaries H line p (len q)) ps.

(** ** Specification side: the matches of a pattern in a line *)

(** The scan of the specification in regex mode: search from the cursor,
    count the match, move the cursor to the end of the match, and one
    position further when the match is empty; stop when the search fails or
    the cursor has left the line. *)
Inductive RegexScan (H : Host) (r : regexp H) (line : jsstring)
    : Z -> list (Z * jsstring) -> Prop :=
| regex_done (cursor : Z) :
    len line < cursor \/ RegExp_match H r line cursor = None ->
    RegexScan H r line cursor []
| regex_hit (cursor index : Z) (text : jsstring) (ms : list (Z * jsstring)) :
    cursor <= len line ->
    RegExp_match H r line cursor = Some (index, text) ->
    RegexScan H r line
      (index + len text + match text with [] => 1 | _ => 0 end) ms ->
    RegexScan H r line cursor ((index, text) :: ms).

(** ** Specification side: the lines with a match *)

(** One entry per line that has an occurrence, in the order of the lines;
    [lines] are the lines from [index] on. *)
Fixpoint matchedLines (scanLine : jsstring -> option (Z * Z * Z))
    (lines : list jsstring) (index : Z) : list LineMatch :=
  match lines with
  | [] => []
  | line :: rest =>
    match scanLine line with
    | Some (occ, firstMatchIndex, matchLength) =>
      if occ =? 0 then matchedLines scanLine rest (index + 1)
      else {| lineNumber := index + 1; occurrences := occ;
              preview := createPreview line firstMatchIndex matchLength |}
           :: matchedLines scanLine rest (index + 1)
    | None => matchedLines scanLine rest (index + 1)
    end
  end.

Definition sumOccurrences (ms : list LineMatch) : Z :=
  fold_right Z.add 0 (map occurrences ms).

(** ** Specification side: hosts that agree with Unicode on ASCII *)

Definition asciiLower (c : codeunit) : codeunit :=
  if ((65 <=? c) && (c <=? 90))%N then (c + 32)%N else c.

Definition asciiLetter (c : codeunit) : bool :=
  ((65 <=? c) && (c <=? 90) || (97 <=? c) && (c <=? 122))%N.

Definition asciiDigit (c : codeunit) : bool :=
  ((48 <=? c) && (c <=? 57))%N.

Definition isAscii (s : jsstring) : Prop := Forall (fun c => (c < 128)%N) s.

(** On ASCII text the tables of the runtime are these. *)
Definition asciiFaithful (H : Host) : Prop :=
  (forall s, isAscii s -> toLowerCase H s = map asciiLower s)
  /\ (forall c, (c < 128)%N -> unicode_L H c = asciiLetter c)
  /\ (forall c, (c < 128)%N -> unicode_N H c = asciiDigit c).

(** ** Specification side: a line that has an occurrence *)

(** The line and the query as they are compared in substring mode. *)
Definition foldCase (H : Host) (options : SearchOptions) (s : jsstring) : jsstring :=
  if caseSensitive options then s else toLowerCase H s.

(** The line has an occurrence of the query under the rule of the mode: in
    regex mode the compiled pattern matches somewhere in the line; in
    substring mode the scan of the line has a candidate, one at word
    boundaries when whole words are asked for. *)
Definition hasOccurrence (H : Host) (query : jsstring) (options : SearchOptions)
    (line : jsstring) : Prop :=
  if regex options then
    exists r,
      RegExp_new H (regexSource query options) (regexFlags options) = Some r
      /\ RegExp_match H r line 0 <> None
  else
    exists ps p,
      GreedyScan (foldCase H options line) (foldCase H options query) 0 ps
      /\ In p ps
      /\ (wholeWord options = true ->
          flankedByNonWord H line p (len (foldCase H options query))).

(** ** Specification side: results *)

(** The result for a document of the one line [line] whose occurrences
    that count are at [positions]. *)
Definition oneLineResult (line query : jsstring) (positions : list Z) : SearchResult :=
  match positions with
  | [] =>
    {| matches := []; totalOccurrences := 0; totalMatchedLines := 0;
       isTruncated := false; errorMessage := None |}
  | p :: _ =>
    {| matches := [ {| lineNumber := 1;
                       occurrences := Z.of_nat (length positions);
                       preview := createPreview line p (len query) |} ];
       totalOccurrences := Z.of_nat (length positions);
       totalMatchedLines := 1;
       isTruncated := false; errorMessage := None |}
  end.

(** The scan of a line that the mode of [options] runs for the (trimmed,
    non-empty) query; none when the pattern of regex mode does not compile. *)
Definition scanOf (H : Host) (query : jsstring) (options : SearchOptions)
    : option (jsstring -> option (Z * Z * Z)) :=
  if regex options then
    match RegExp_new H (regexSource query options) (regexFlags options) with
    | Some r => Some (regexScanLine H r)
    | None => None
    end
  else Some (substringScanLine H query (foldCase H options query) options).

(** A document of [n] distinct lines that all contain [todo]. *)
Definition todoLines (n : nat) : list jsstring :=
  map (fun k => lit "todo " ++ repeat 120%N k) (seq 0 n).

(** * The rest of the component *)

(** ** The lines of the document (line 69)

    [markdown.split(/\r?\n/)]: a line ends at a line feed or at a carriage
    return followed by a line feed; the text after the last separator is the
    last line, so the empty text has one line, the empty one. *)
Fixpoint splitLines (markdown : jsstring) : list jsstring :=
  match markdown with
  | [] => [[]]
  | c :: rest =>
    let extended :=
      match splitLines rest with
      | line :: lines => (c :: line) :: lines
      | [] => [[c]]
      end in
    if (c =? 10)%N then [] :: splitLines rest
    else
      match rest with
      | d :: rest' =>
        if (c =? 13)%N && (d =? 10)%N then [] :: splitLines rest' else extended
      | [] => extended
      end
  end.

(** The result the component shows (lines 69-74): the lines of the
    document searched for the debounced query. *)
Definition searchDocument (H : Host) (markdown debouncedQuery : jsstring)
    (options : SearchOptions) : option SearchResult :=
  search H (splitLines markdown) debouncedQuery options.

(** ** Pages of matches (lines 231-262) *)

Definition MATCHES_PER_PAGE : Z := 100.

(** [Array.prototype.slice(start, end)], with the clamping of [slice]. *)
Definition sliceArray {A : Type} (items : list A) (start stop : Z) : list A :=
  let n := Z.of_nat (length items) in
  let from := if start <? 0 then Z.max (n + start) 0 else Z.min start n in
  let to := if stop <? 0 then Z.max (n + stop) 0 else Z.min stop n in
  firstn (Z.to_nat (to - from)) (skipn (Z.to_nat from) items).

(** The matches listed on the page [currentPage]. *)
Definition visibleMatches (ms : list LineMatch) (currentPage : Z) : list LineMatch :=
  sliceArray ms ((currentPage - 1) * MATCHES_PER_PAGE) (currentPage * MATCHES_PER_PAGE).

(** [Math.ceil(matches.length / MATCHES_PER_PAGE)]; the quotient of the two
    integers is computed in floating point, where its ceiling is the
    ceiling of the exact quotient. *)
Definition pageCount (ms : list LineMatch) : Z :=
  (Z.of_nat (length ms) + MATCHES_PER_PAGE - 1) / MATCHES_PER_PAGE.

(** The page buttons: none up to [MATCHES_PER_PAGE] matches, else one for
    each page, numbered from [1]. *)
Definition pageButtons (ms : list LineMatch) : list Z :=
  if MATCHES_PER_PAGE <? Z.of_nat (length ms) then
    map (fun i => Z.of_nat i + 1) (seq 0 (Z.to_nat (pageCount ms)))
  else [].

(** ** Specification side: lines put together again *)

(** The lines with a line feed between each two. *)
Fixpoint joinLines (lines : list jsstring) : jsstring :=
  match lines with
  | [] => []
  | [line] => line
  | line :: rest => line ++ 10%N :: joinLines rest
  end.

Definition endsWithCR (line : jsstring) : Prop :=
  exists front, line = front ++ [13%N].

(** The text with every carriage return that is followed by a line feed
    left out. *)
Fixpoint crlfToLf (s : jsstring) : jsstring :=
  match s with
  | [] => []
  | c :: rest =>
    match rest with
    | d :: _ => if (c =? 13)%N && (d =? 10)%N then crlfToLf rest else c :: crlfToLf rest
    | [] => [c]
    end
  end.

(** * Document keys ([src/pages/HomePage.tsx], lines 294-303) *)

(** The class [[a-z0-9]]. *)
Definition isKeyUnit (c : codeunit) : bool :=
  ((97 <=? c) && (c <=? 122) || (48 <=? c) && (c <=? 57))%N.

(** [.replace(/[^a-z0-9]+/g, "-")]: each run of code units outside the
    class becomes one dash, put where the run ends. *)
Fixpoint dashRuns (s : jsstring) : jsstring :=
  match s with
  | [] => []
  | c :: rest =>
    if isKeyUnit c then c :: dashRuns rest
    else
      match rest with
      | d :: _ => if isKeyUnit d then 45%N :: dashRuns rest else dashRuns rest
      | [] => [45%N]
      end
  end.

(** [.replace(/(^-|-$)/g, "")]: a dash at the start goes, and so does a
    dash at the end of what is left. *)
Definition stripEdgeDashes (s : jsstring) : jsstring :=
  let rest :=
    match s with
    | c :: rest => if (c =? 45)%N then rest else s
    | [] => []
    end in
  match rev rest with
  | c :: front => if (c =? 45)%N then rev front else rest
  | [] => rest
  end.

(** The constant [normalizedName] of [createDocumentKey]. *)
Definition normalizedName (H : Host) (fileName : jsstring) : jsstring :=
  match slice (stripEdgeDashes (dashRuns (toLowerCase H fileName))) 0 40 with
  | [] => lit "md-file"
  | name => name
  end.

(** [createDocumentKey]; [now] is the text of [Date.now()] and [uuid] that
    of [crypto.randomUUID()]. *)
Definition createDocumentKey (H : Host) (fileName now uuid : jsstring) : jsstring :=
  normalizedName H fileName ++ lit "-" ++ now ++ lit "-" ++ uuid.

(** ** Specification side: names made for keys *)

(** Every code unit is of [[a-z0-9]] or a dash, and a dash is the last one
    or has a code unit of [[a-z0-9]] after it. *)
Fixpoint wellDashed (s : jsstring) : Prop :=
  match s with
  | [] => True
  | c :: rest =>
    (isKeyUnit c = true
     \/ (c = 45%N /\ match rest with [] => True | d :: _ => isKeyUnit d = true end))
    /\ wellDashed rest
  end.

(** * What the results area shows ([DocumentSearchModal.tsx], lines 221-264) *)

Inductive ResultsView : Type :=
| NoQueryYet
| FixThePattern
| NoMatchingLines
| MatchList (items : list LineMatch) (buttons : list Z).

(** The chain of conditions of the results area; an error message counts
    when it is a string that is not empty. *)
Definition resultsView (query : jsstring) (searchResult : SearchResult)
    (currentPage : Z) : ResultsView :=
  match trim query with
  | [] => NoQueryYet
  | _ =>
    match errorMessage searchResult with
    | Some (_ :: _) => FixThePattern
    | _ =>
      match matches searchResult with
      | [] => NoMatchingLines
      | ms => MatchList (visibleMatches ms currentPage) (pageButtons ms)
      end
    end
  end.


(** * Lower case that moves positions *)

(** ** A reference host with the capital dotted I

    [Ref.host] with one character more: U+0130 (code unit 304), a letter
    whose lower case is the two code units [i] (105) and U+0307, the
    combining dot above (775), which is no letter.  Patterns are those of
    [Ref.host]. *)
Module Dotted.

Definition lower (c : codeunit) : jsstring :=
  if (c =? 304)%N then [105%N; 775%N] else [Ref.lowerUnit c].

Definition toLowerCase (s : jsstring) : jsstring := flat_map lower s.

Definition isLetter (c : codeunit) : bool := Ref.isLetter c || (c =? 304)%N.

Definition host : Host :=
  Build_Host toLowerCase isLetter Ref.isNumber
    Ref.regexp Ref.RegExp_new Ref.RegExp_match.

End Dotted.

(** ** Specification side: lower case that keeps positions *)

(** Putting [s] to lower case replaces each code unit by one code unit (or
    the search is case sensitive and [s] is compared as it is), so that a
    position of the text compared is the position of the same character in
    [s].  A text with U+0130 is not of this kind. *)
Definition foldsInPlace (H : Host) (options : SearchOptions) (s : jsstring) : Prop :=
  caseSensitive options = true
  \/ exists lower : codeunit -> codeunit, toLowerCase H s = map lower s.

(** ** Specification side: characters beyond the first 65536 *)

(** The code point that the surrogate pair [high], [low] stands for. *)
Definition codePointOf (high low : codeunit) : N :=
  (65536 + (high - 55296) * 1024 + (low - 56320))%N.
(** * Properties *)

(** ** Strings *)

Lemma len_nonneg (s : jsstring) : 0 <= len s.
Proof. unfold len; lia. Qed.

Lemma len_app (s t : jsstring) : len (s ++ t) = len s + len t.
Proof. unfold len; rewrite length_app; lia. Qed.

Lemma len_nil_iff (s : jsstring) : len s = 0 <-> s = [].
Proof.
  unfold len; split; intros E.
  - destruct s; [reflexivity | simpl in E; lia].
  - subst; reflexivity.
Qed.

Lemma slice_inside (s : jsstring) (a b : Z) :
  0 <= a <= b -> b <= len s ->
  slice s a b = firstn (Z.to_nat (b - a)) (skipn (Z.to_nat a) s).
Proof.
  intros Ha Hb; unfold slice.
  destruct (Z.ltb_spec a 0); [lia|].
  destruct (Z.ltb_spec b 0); [lia|].
  rewrite !Z.min_l by lia; reflexivity.
Qed.

Lemma split_three {A : Type} (l : list A) (a b : nat) :
  (a <= b)%nat ->
  l = firstn a l ++ firstn (b - a) (skipn a l) ++ skipn b l.
Proof.
  intros Hab.
  replace (skipn b l) with (skipn (b - a) (skipn a l)).
  - now rewrite firstn_skipn, firstn_skipn.
  - rewrite skipn_skipn; f_equal; lia.
Qed.

(** ** createPreview *)

Lemma createPreview_nonempty (line : jsstring) (index matchLength : Z) :
  line <> [] ->
  let a := windowStart index in
  let b := windowEnd line index matchLength in
  createPreview line index matchLength
  = (if 0 <? a then lit "..." else [])
      ++ slice line a b ++ (if b <? len line then lit "..." else []).
Proof. destruct line; [congruence | reflexivity]. Qed.

Lemma window_bounds (line : jsstring) (index matchLength : Z) :
  0 <= windowStart index /\
  Z.min (windowStart index) (len line) <= windowEnd line index matchLength
  /\ windowEnd line index matchLength <= len line.
Proof. unfold windowStart, windowEnd; pose proof (len_nonneg line); lia. Qed.

Lemma createPreview_decompose (line : jsstring) (index matchLength : Z) :
  line <> [] ->
  exists cutLeft window cutRight,
    line = cutLeft ++ window ++ cutRight
    /\ len cutLeft = Z.min (windowStart index) (len line)
    /\ len cutLeft + len window = windowEnd line index matchLength
    /\ createPreview line index matchLength
       = ellipsisFor cutLeft ++ window ++ ellipsisFor cutRight.
Proof.
  intros Hne.
  rewrite createPreview_nonempty by exact Hne.
  pose proof (window_bounds line index matchLength) as (Ha & Hab & Hb).
  assert (Hn : 0 < len line).
  { destruct (Z.eq_dec (len line) 0) as [E|E];
      [apply len_nil_iff in E; congruence | pose proof (len_nonneg line); lia]. }
  set (a := windowStart index) in *.
  set (b := windowEnd line index matchLength) in *.
  set (A := Z.to_nat (Z.min a (len line))).
  set (B := Z.to_nat b).
  assert (HAB : (A <= B)%nat) by (unfold A, B; lia).
  assert (HBn : (B <= length line)%nat) by (unfold B, len in *; lia).
  exists (firstn A line), (firstn (B - A) (skipn A line)), (skipn B line).
  assert (HlenL : len (firstn A line) = Z.min a (len line)).
  { unfold len at 1. rewrite length_firstn. unfold A, len in *. lia. }
  assert (HlenW : len (firstn (B - A) (skipn A line)) = b - Z.min a (len line)).
  { unfold len at 1. rewrite length_firstn, length_skipn. unfold A, B, len in *. lia. }
  assert (HlenR : len (skipn B line) = len line - b).
  { unfold len at 1. rewrite length_skipn. unfold B, len in *. lia. }
  split; [apply split_three; exact HAB|].
  split; [exact HlenL|].
  split; [lia|].
  f_equal; [|f_equal].
  - destruct (Z.ltb_spec 0 a) as [Hpos|Hzero].
    + destruct (firstn A line) eqn:E; [|reflexivity].
      exfalso; change (0 = Z.min a (len line)) in HlenL; lia.
    + replace A with 0%nat by (unfold A; lia). reflexivity.
  - unfold slice.
    destruct (Z.ltb_spec a 0); [lia|].
    destruct (Z.ltb_spec b 0); [lia|].
    rewrite (Z.min_l b) by lia.
    fold A. replace (Z.to_nat (b - Z.min a (len line))) with (B - A)%nat
      by (unfold A, B; lia).
    reflexivity.
  - destruct (Z.ltb_spec b (len line)) as [Hlt|Hge].
    + destruct (skipn B line) eqn:E; [|reflexivity].
      exfalso; change (0 = len line - b) in HlenR; lia.
    + destruct (skipn B line) eqn:E; [reflexivity|].
      exfalso. unfold len at 1 in HlenR. simpl in HlenR. lia.
Qed.

(** ** indexOf *)

Lemma startsWith_firstn (q s : jsstring) :
  startsWith q s = true <-> firstn (length q) s = q.
Proof.
  revert s; induction q as [|c q IH]; intros s; simpl.
  - split; reflexivity.
  - destruct s as [|d s]; simpl.
    + split; discriminate.
    + rewrite andb_true_iff, N.eqb_eq, IH. split.
      * intros [-> ->]; reflexivity.
      * intros E; injection E as -> E; split; [reflexivity | exact E].
Qed.

Lemma startsWith_nil_false (q : jsstring) : q <> [] -> startsWith q [] = false.
Proof. destruct q; [congruence | reflexivity]. Qed.

Lemma occursAt_startsWith (s q : jsstring) (p : Z) :
  occursAt s q p <-> 0 <= p /\ startsWith q (skipn (Z.to_nat p) s) = true.
Proof. unfold occursAt; now rewrite startsWith_firstn. Qed.

Lemma occursAt_inside (s q : jsstring) (p : Z) :
  q <> [] -> occursAt s q p -> 0 <= p /\ p + len q <= len s /\ p < len s.
Proof.
  intros Hq [Hp E].
  apply (f_equal (@length _)) in E.
  rewrite length_firstn, length_skipn in E.
  assert (0 < length q)%nat by (destruct q; [congruence | simpl; lia]).
  unfold len; lia.
Qed.

Lemma indexOfFrom_spec (q : jsstring) :
  forall (s : jsstring) (k : Z), 0 <= k ->
    (indexOfFrom q s k = -1
     /\ forall j : nat, startsWith q (skipn j s) = false)
    \/ (exists j : nat,
          indexOfFrom q s k = k + Z.of_nat j
          /\ (j <= length s)%nat
          /\ startsWith q (skipn j s) = true
          /\ forall i : nat, (i < j)%nat -> startsWith q (skipn i s) = false).
Proof.
  induction s as [|c s IH]; intros k Hk; simpl.
  - destruct (startsWith q []) eqn:E.
    + right; exists 0%nat; simpl.
      split; [lia|]. split; [lia|]. split; [exact E | intros; lia].
    + left; split; [reflexivity | intros [|j]; exact E].
  - destruct (startsWith q (c :: s)) eqn:E.
    + right; exists 0%nat; simpl.
      split; [lia|]. split; [lia|]. split; [exact E | intros; lia].
    + destruct (IH (k + 1) ltac:(lia)) as [[E1 Hno] | (j & E1 & Hj & Hyes & Hno)].
      * left; split; [exact E1 | intros [|j]; [exact E | apply Hno]].
      * right; exists (S j); simpl.
        split; [lia|]. split; [lia|]. split; [exact Hyes|].
        intros [|i] Hi; [exact E | apply Hno; lia].
Qed.

Lemma indexOf_spec (s q : jsstring) (from : Z) :
  0 <= from <= len s ->
  (indexOf s q from = -1 /\ forall p, from <= p -> ~ occursAt s q p)
  \/ (from <= indexOf s q from <= len s
      /\ occursAt s q (indexOf s q from)
      /\ forall k, from <= k < indexOf s q from -> ~ occursAt s q k).
Proof.
  intros Hfrom; unfold indexOf.
  replace (Z.min (Z.max from 0) (len s)) with from by lia.
  destruct (indexOfFrom_spec q (skipn (Z.to_nat from) s) from ltac:(lia))
    as [[E Hno] | (j & E & Hj & Hyes & Hno)].
  - left; split; [exact E|].
    intros p Hp Hocc. apply occursAt_startsWith in Hocc as [_ Hocc].
    specialize (Hno (Z.to_nat p - Z.to_nat from)%nat).
    rewrite skipn_skipn in Hno.
    replace (Z.to_nat p - Z.to_nat from + Z.to_nat from)%nat with (Z.to_nat p) in Hno by lia.
    congruence.
  - right; rewrite E. rewrite length_skipn in Hj.
    split; [unfold len in *; lia|]. split.
    + apply occursAt_startsWith; split; [lia|].
      rewrite skipn_skipn in Hyes.
      replace (Z.to_nat (from + Z.of_nat j)) with (j + Z.to_nat from)%nat by lia.
      exact Hyes.
    + intros k Hk Hocc. apply occursAt_startsWith in Hocc as [_ Hocc].
      specialize (Hno (Z.to_nat k - Z.to_nat from)%nat ltac:(lia)).
      rewrite skipn_skipn in Hno.
      replace (Z.to_nat k - Z.to_nat from + Z.to_nat from)%nat with (Z.to_nat k) in Hno by lia.
      congruence.
Qed.

(** ** The scan of the specification is a function of the line *)

Lemma GreedyScan_functional (s q : jsstring) (from : Z) (ps ps' : list Z) :
  GreedyScan s q from ps -> GreedyScan s q from ps' -> ps = ps'.
Proof.
  intros G; revert ps'.
  induction G as [from Hno | from p ps Hp Hocc Hfirst G IH]; intros ps' G'.
  - inversion G' as [| from' p' ps'' Hp' Hocc' ]; subst; [reflexivity|].
    exfalso; exact (Hno p' Hp' Hocc').
  - inversion G' as [from' Hno | from' p' ps'' Hp' Hocc' Hfirst' G'']; subst.
    + exfalso; exact (Hno p Hp Hocc).
    + assert (p = p').
      { destruct (Z.lt_trichotomy p p') as [Hlt | [Heq | Hgt]]; [|exact Heq|].
        - exfalso; apply (Hfirst' p); [lia | exact Hocc].
        - exfalso; apply (Hfirst p'); [lia | exact Hocc']. }
      subst p'. f_equal. apply IH; exact G''.
Qed.

(** The positions of a scan increase by at least [max(1, len q)]: the
    occurrences found do not overlap. *)
Lemma GreedyScan_apart (s q : jsstring) (from : Z) (ps : list Z) :
  GreedyScan s q from ps ->
  Forall (fun p => from <= p /\ occursAt s q p) ps
  /\ forall i j p p', (i < j)%nat -> nth_error ps i = Some p ->
       nth_error ps j = Some p' -> p + Z.max 1 (len q) <= p'.
Proof.
  induction 1 as [from Hno | from p ps Hp Hocc Hfirst G [IHall IHgap]].
  - split; [constructor | intros i j p p' _ E; destruct i; discriminate].
  - split.
    + constructor; [split; assumption|].
      eapply Forall_impl; [|exact IHall]. simpl; intros a [Ha Hoa]; split; [lia | exact Hoa].
    + intros [|i] [|j] a b Hij Ea Eb; simpl in *; try lia.
      * injection Ea as <-.
        apply nth_error_In in Eb. rewrite Forall_forall in IHall.
        destruct (IHall b Eb); lia.
      * eapply IHgap; [|exact Ea|exact Eb]; lia.
Qed.

(** ** Word boundaries *)

Lemma isWordCharacter_charAt (H : Host) (line : jsstring) (i : Z) :
  isWordCharacter H (charAtOrEmpty line i) = true <-> wordUnit H (unitAt line i).
Proof.
  unfold charAtOrEmpty, unitAt.
  destruct (i <? 0); [simpl; split; [discriminate | tauto]|].
  destruct (nth_error line (Z.to_nat i)) as [c|]; simpl;
    [|split; [discriminate | tauto]].
  unfold wordClass.
  rewrite orb_false_r, !orb_true_iff, N.eqb_eq. tauto.
Qed.

Lemma hasWordBoundaries_iff (H : Host) (line : jsstring) (p n : Z) :
  hasWordBoundaries H line p n = true <-> flankedByNonWord H line p n.
Proof.
  unfold hasWordBoundaries, flankedByNonWord.
  rewrite andb_true_iff, !negb_true_iff, <- !not_true_iff_false,
    !isWordCharacter_charAt.
  reflexivity.
Qed.

(** ** The scan of a line in substring mode *)

Lemma substringWhile_spec (H : Host) (line s q : jsstring) (whole : bool) :
  q <> [] ->
  forall (fuel : nat) (occ from first : Z),
    0 <= from -> len s - from <= Z.of_nat fuel ->
    exists ps,
      GreedyScan s q from ps
      /\ substringWhile H fuel line s q whole occ from first
         = Some (occ + Z.of_nat (length (counted H line q whole ps)),
                 if first =? -1 then hd (-1) (counted H line q whole ps)
                 else first).
Proof.
  intros Hq; induction fuel as [|fuel IH]; intros occ from first Hfrom Hfuel.
  - exists []; split.
    + constructor; intros p Hp Hocc.
      apply (occursAt_inside _ _ _ Hq) in Hocc; lia.
    + simpl. destruct (Z.ltb_spec from (len s)); [lia|].
      rewrite Z.add_0_r. now destruct (first =? -1) eqn:E; [apply Z.eqb_eq in E; subst|].
  - cbn [substringWhile].
    destruct (Z.ltb_spec from (len s)) as [Hlt|Hge].
    2:{ exists []; split.
        - constructor; intros p Hp Hocc.
          apply (occursAt_inside _ _ _ Hq) in Hocc; lia.
        - simpl. rewrite Z.add_0_r.
          now destruct (first =? -1) eqn:E; [apply Z.eqb_eq in E; subst|]. }
    destruct (indexOf_spec s q from ltac:(lia)) as [[E Hno] | (Hr & Hocc & Hfirst)].
    + rewrite E; simpl. exists []; split; [constructor; exact Hno|].
      simpl. rewrite Z.add_0_r.
      now destruct (first =? -1) eqn:E'; [apply Z.eqb_eq in E'; subst|].
    + set (p := indexOf s q from) in *.
      destruct (Z.eqb_spec p (-1)) as [Hm|_]; [lia|].
      set (ok := negb whole || hasWordBoundaries H line p (len q)).
      destruct (IH (if ok then occ + 1 else occ) (p + Z.max 1 (len q))
                  (if ok && (first =? -1) then p else first)
                  ltac:(lia) ltac:(lia)) as (ps & G & E).
      exists (p :: ps); split; [constructor; [lia | exact Hocc | exact Hfirst | exact G]|].
      rewrite E. unfold counted; simpl; fold ok; fold (counted H line q whole ps).
      destruct ok; simpl.
      * destruct (Z.eqb_spec first (-1)) as [->|Hf]; simpl.
        -- destruct (Z.eqb_spec p (-1)); [lia|]. f_equal; f_equal; lia.
        -- destruct (Z.eqb_spec first (-1)); [lia|]. f_equal; f_equal; lia.
      * reflexivity.
Qed.

Lemma substringScanLine_spec (H : Host) (query nq : jsstring)
    (options : SearchOptions) (line : jsstring) :
  nq <> [] ->
  let s := if caseSensitive options then line else toLowerCase H line in
  exists ps,
    GreedyScan s nq 0 ps
    /\ substringScanLine H query nq options line
       = Some (Z.of_nat (length (counted H line nq (wholeWord options) ps)),
               hd (-1) (counted H line nq (wholeWord options) ps),
               len query).
Proof.
  intros Hq s.
  destruct (substringWhile_spec H line s nq (wholeWord options) Hq
              (length s) 0 0 (-1) ltac:(lia) ltac:(unfold len; lia))
    as (ps & G & E).
  exists ps; split; [exact G|].
  unfold substringScanLine; fold s; rewrite E; reflexivity.
Qed.

(** ** The scan of a line in regex mode *)

Section RegexLoop.

Variable H : Host.
Hypothesis bounds : match_in_bounds H.
Variable r : regexp H.
Variable line : jsstring.

Lemma next_cursor (cursor index : Z) (text : jsstring) :
  RegExp_match H r line cursor = Some (index, text) ->
  cursor + 1 <= index + len text + match text with [] => 1 | _ => 0 end
  /\ index + len text <= len line.
Proof.
  intros E; apply bounds in E as [Hi He].
  split; [|exact He].
  destruct text as [|c t]; [unfold len; simpl; lia|].
  unfold len; simpl length; lia.
Qed.

Lemma regexWhile_spec :
  forall (fuel : nat) (cursor occ first firstLen : Z),
    0 <= cursor -> len line + 1 - cursor <= Z.of_nat fuel ->
    exists ms,
      RegexScan H r line cursor ms
      /\ (let '(result, lastIndex) := exec H r line cursor in
          regexWhile H fuel r line occ first firstLen result lastIndex)
         = Some (occ + Z.of_nat (length ms),
                 if first =? -1
                 then match ms with [] => first | (i, _) :: _ => i end
                 else first,
                 if first =? -1
                 then match ms with [] => firstLen | (_, t) :: _ => Z.max 1 (len t) end
                 else firstLen).
Proof.
  induction fuel as [|fuel IH]; intros cursor occ first firstLen Hc Hfuel.
  - exists []; split; [constructor; left; lia|].
    unfold exec. destruct (Z.ltb_spec (len line) cursor); [|lia].
    simpl. rewrite Z.add_0_r. now destruct (first =? -1).
  - unfold exec at 1.
    destruct (Z.ltb_spec (len line) cursor) as [Hout|Hin].
    { exists []; split; [constructor; left; lia|].
      simpl. rewrite Z.add_0_r. now destruct (first =? -1). }
    destruct (RegExp_match H r line cursor) as [[index text]|] eqn:E.
    2:{ exists []; split; [constructor; right; exact E|].
        simpl. rewrite Z.add_0_r. now destruct (first =? -1). }
    destruct (next_cursor _ _ _ E) as [Hadv Hend].
    cbn [regexWhile].
    set (cursor' := match text with [] => index + len text + 1 | _ => index + len text end).
    assert (Ec : cursor' = index + len text + match text with [] => 1 | _ => 0 end)
      by (unfold cursor'; destruct text; lia).
    destruct (IH cursor' (occ + 1)
                (if first =? -1 then index else first)
                (if first =? -1 then Z.max 1 (len text) else firstLen)
                ltac:(lia) ltac:(lia)) as (ms & G & Erun).
    exists ((index, text) :: ms); split.
    + econstructor; [lia | exact E | rewrite <- Ec; exact G].
    + rewrite Erun. simpl length.
      destruct (Z.eqb_spec first (-1)) as [->|Hf].
      * assert (0 <= index) by (apply bounds in E; lia).
        destruct (Z.eqb_spec index (-1)); [lia|].
        do 3 f_equal; lia.
      * destruct (Z.eqb_spec first (-1)); [lia|]. f_equal; f_equal; f_equal; lia.
Qed.

Lemma regexScanLine_spec :
  exists ms,
    RegexScan H r line 0 ms
    /\ regexScanLine H r line
       = Some (Z.of_nat (length ms),
               match ms with [] => -1 | (i, _) :: _ => i end,
               match ms with [] => 0 | (_, t) :: _ => Z.max 1 (len t) end).
Proof.
  destruct (regexWhile_spec (S (length line)) 0 0 (-1) 0
              ltac:(lia) ltac:(unfold len; lia)) as (ms & G & E).
  exists ms; split; [exact G|].
  unfold regexScanLine. exact E.
Qed.

(** A scan cannot find more matches than the line has positions, and its
    matches start further and further to the right. *)
Lemma RegexScan_bounded (cursor : Z) (ms : list (Z * jsstring)) :
  0 <= cursor ->
  RegexScan H r line cursor ms ->
  Z.of_nat (length ms) <= Z.max 0 (len line + 1 - cursor)
  /\ Forall (fun m => cursor <= fst m /\ fst m + len (snd m) <= len line) ms
  /\ forall i j m m', (i < j)%nat -> nth_error ms i = Some m ->
       nth_error ms j = Some m' ->
       fst m + Z.max 1 (len (snd m)) <= fst m'.
Proof.
  intros Hc G; induction G as [cursor Hend | cursor index text ms Hin E G IH].
  - split; [simpl; lia|]. split; [constructor|].
    intros i j m m' _ Ei; destruct i; discriminate.
  - destruct (next_cursor _ _ _ E) as [Hadv Hend].
    pose proof (bounds _ _ _ _ _ E) as [Hi _].
    destruct (IH ltac:(lia)) as (Hlen & Hall & Hgap).
    split; [simpl length; lia|]. split.
    + constructor; [simpl; lia|].
      eapply Forall_impl; [|exact Hall]. simpl; intros m [Hm Hm']; lia.
    + intros [|i] [|j] m m' Hij Em Em'; simpl in *; try lia.
      * injection Em as <-. simpl.
        apply nth_error_In in Em'. rewrite Forall_forall in Hall.
        destruct (Hall m' Em') as [Hm' _].
        destruct text; unfold len in *; simpl length in *; lia.
      * eapply Hgap; [|exact Em|exact Em']; lia.
Qed.

Lemma RegexScan_functional (cursor : Z) (ms ms' : list (Z * jsstring)) :
  RegexScan H r line cursor ms -> RegexScan H r line cursor ms' -> ms = ms'.
Proof.
  intros G; revert ms'.
  induction G as [cursor Hend | cursor index text ms Hin E G IH]; intros ms' G'.
  - inversion G' as [| c i t ms'' Hin' E' G'']; subst; [reflexivity|].
    destruct Hend as [Hend|Hend]; [lia | congruence].
  - inversion G' as [c Hend | c i t ms'' Hin' E' G'']; subst.
    + destruct Hend as [Hend|Hend]; [lia | congruence].
    + rewrite E in E'; injection E' as <- <-. f_equal. apply IH; exact G''.
Qed.

End RegexLoop.

(** ** The loop over the lines *)

Lemma fold_left_occurrences (ms : list LineMatch) (z : Z) :
  fold_left (fun sum m => sum + occurrences m) ms z = z + sumOccurrences ms.
Proof.
  revert z; induction ms as [|m ms IH]; intros z; unfold sumOccurrences in *; simpl.
  - lia.
  - rewrite IH; lia.
Qed.

Lemma completeResult_totals (ms : list LineMatch) :
  totalOccurrences (completeResult ms) = sumOccurrences ms
  /\ totalMatchedLines (completeResult ms) = Z.of_nat (length ms).
Proof. split; [apply fold_left_occurrences | reflexivity]. Qed.

Section Loop.

Variable scanLine : jsstring -> option (Z * Z * Z).

(** With every line scanned to its end, the loop returns all the matched
    lines when they are at most [MAX_MATCH_LINES], the first
    [MAX_MATCH_LINES] of them and the truncated result when they are more. *)
Lemma forLines_spec (lines : list jsstring) :
  forall (index : Z) (ms : list LineMatch),
    Z.of_nat (length ms) <= MAX_MATCH_LINES ->
    Forall (fun line => scanLine line <> None) lines ->
    let all := ms ++ matchedLines scanLine lines index in
    forLines scanLine lines index ms
    = Some (if Z.of_nat (length all) <=? MAX_MATCH_LINES
            then completeResult all
            else truncatedResult (firstn 500 all)).
Proof.
  induction lines as [|line rest IH]; intros index ms Hms Htotal;
    cbn [forLines matchedLines]; cbv zeta.
  - rewrite app_nil_r.
    destruct (Z.leb_spec (Z.of_nat (length ms)) MAX_MATCH_LINES); [reflexivity | lia].
  - inversion Htotal as [|? ? Hline Hrest]; subst.
    destruct (scanLine line) as [[[occ first] mlen]|]; [|congruence].
    destruct (occ =? 0); [apply IH; assumption|].
    destruct (Z.leb_spec MAX_MATCH_LINES (Z.of_nat (length ms))) as [Hfull|Hroom].
    + unfold MAX_MATCH_LINES in *.
      rewrite length_app; cbn [length].
      destruct (Z.leb_spec (Z.of_nat (length ms + S (length (matchedLines scanLine rest (index + 1))))) 500);
        [lia|].
      rewrite firstn_app.
      replace (500 - length ms)%nat with 0%nat by lia.
      rewrite firstn_all2 by lia. cbn [firstn]. now rewrite app_nil_r.
    + rewrite IH; [|rewrite length_app; cbn [length]; lia | assumption].
      cbv zeta. now rewrite <- app_assoc.
Qed.

(** What holds of every result of the loop, whatever the scans do. *)
Lemma forLines_sound (lines : list jsstring) :
  forall (index : Z) (ms : list LineMatch) (res : SearchResult),
    Z.of_nat (length ms) <= MAX_MATCH_LINES ->
    forLines scanLine lines index ms = Some res ->
    (res = truncatedResult (matches res) /\ length (matches res) = 500%nat)
    \/ res = completeResult (matches res).
Proof.
  induction lines as [|line rest IH]; intros index ms res Hms E;
    cbn [forLines] in E.
  - injection E as <-. right; reflexivity.
  - destruct (scanLine line) as [[[occ first] mlen]|]; [|discriminate].
    destruct (occ =? 0); [eapply IH; eassumption|].
    destruct (Z.leb_spec MAX_MATCH_LINES (Z.of_nat (length ms))) as [Hfull|Hroom].
    + injection E as <-. left; cbn [matches truncatedResult].
      unfold MAX_MATCH_LINES in *; split; [reflexivity | lia].
    + eapply IH; [|exact E]. rewrite length_app; cbn [length]; lia.
Qed.

Lemma matchedLines_length (lines : list jsstring) (index : Z) :
  Forall (fun line => exists occ first mlen,
              scanLine line = Some (occ, first, mlen) /\ occ <> 0) lines ->
  length (matchedLines scanLine lines index) = length lines.
Proof.
  revert index; induction lines as [|line rest IH]; intros index Hall; simpl.
  - reflexivity.
  - inversion Hall as [|? ? (occ & first & mlen & E & Hocc) Hrest]; subst.
    rewrite E. destruct (Z.eqb_spec occ 0); [contradiction|].
    simpl; now rewrite IH.
Qed.

(** The matched lines come in the order of the lines: their numbers
    increase, and each is the number of a line of the document. *)
Lemma matchedLines_ascending (lines : list jsstring) (index : Z) :
  Forall (fun m => index < lineNumber m <= index + Z.of_nat (length lines))
         (matchedLines scanLine lines index)
  /\ StronglySorted (fun m m' => lineNumber m < lineNumber m')
       (matchedLines scanLine lines index).
Proof.
  revert index; induction lines as [|line rest IH]; intros index; simpl.
  - split; constructor.
  - destruct (IH (index + 1)) as [Hall Hsorted].
    assert (Hall' : Forall (fun m => index < lineNumber m <= index + Z.of_nat (S (length rest)))
                      (matchedLines scanLine rest (index + 1))).
    { eapply Forall_impl; [|exact Hall]. simpl; intros; lia. }
    destruct (scanLine line) as [[[occ first] mlen]|]; [|split; assumption].
    destruct (occ =? 0); [split; assumption|].
    split.
    + constructor; [simpl; lia | exact Hall'].
    + constructor; [exact Hsorted|].
      eapply Forall_impl; [|exact Hall]. simpl; intros; lia.
Qed.

Lemma matchedLines_positive (lines : list jsstring) (index : Z) :
  Forall (fun m => occurrences m <> 0) (matchedLines scanLine lines index).
Proof.
  revert index; induction lines as [|line rest IH]; intros index; simpl.
  - constructor.
  - destruct (scanLine line) as [[[occ first] mlen]|]; [|apply IH].
    destruct (Z.eqb_spec occ 0); [apply IH|].
    constructor; [exact n | apply IH].
Qed.

End Loop.

(** ** Every scan ends *)

Lemma substringWhile_total (H : Host) (line s q : jsstring) (whole : bool) :
  forall (fuel : nat) (occ from first : Z),
    0 <= from -> len s - from <= Z.of_nat fuel ->
    exists res, substringWhile H fuel line s q whole occ from first = Some res.
Proof.
  induction fuel as [|fuel IH]; intros occ from first Hfrom Hfuel; cbn [substringWhile].
  - destruct (Z.ltb_spec from (len s)); [lia | eauto].
  - destruct (Z.ltb_spec from (len s)); [|eauto].
    destruct (indexOf_spec s q from ltac:(lia)) as [[E _] | (Hr & _)].
    + rewrite E; simpl; eauto.
    + destruct (Z.eqb_spec (indexOf s q from) (-1)); [lia|].
      apply IH; lia.
Qed.

Lemma substringScanLine_total (H : Host) (query nq : jsstring)
    (options : SearchOptions) (line : jsstring) :
  substringScanLine H query nq options line <> None.
Proof.
  unfold substringScanLine.
  set (s := if caseSensitive options then line else toLowerCase H line).
  destruct (substringWhile_total H line s nq (wholeWord options)
              (length s) 0 0 (-1) ltac:(lia) ltac:(unfold len; lia)) as [[occ first] E].
  rewrite E; discriminate.
Qed.

Lemma regexScanLine_total (H : Host) (r : regexp H) (line : jsstring) :
  match_in_bounds H -> regexScanLine H r line <> None.
Proof.
  intros bounds.
  destruct (regexScanLine_spec H bounds r line) as (ms & _ & E).
  rewrite E; discriminate.
Qed.

Lemma forLines_total (scanLine : jsstring -> option (Z * Z * Z))
    (lines : list jsstring) :
  (forall line, scanLine line <> None) ->
  exists res, forLines scanLine lines 0 [] = Some res.
Proof.
  intros Htotal.
  rewrite forLines_spec; [eauto | simpl; unfold MAX_MATCH_LINES; lia|].
  apply Forall_forall; intros; apply Htotal.
Qed.

Lemma search_total (H : Host) (lines : list jsstring) (query : jsstring)
    (options : SearchOptions) :
  match_in_bounds H ->
  exists res, search H lines query options = Some res.
Proof.
  intros bounds; unfold search, searchMarkdownLines.
  destruct (trim query) as [|c q]; [eauto|].
  destruct (regex options).
  - unfold searchByRegex.
    destruct (RegExp_new H _ _) as [r|]; [|eauto].
    apply forLines_total; intros line; now apply regexScanLine_total.
  - apply forLines_total; intros line; apply substringScanLine_total.
Qed.

(** ** What a result of [search] can be *)

Lemma search_cases (H : Host) (lines : list jsstring) (query : jsstring)
    (options : SearchOptions) (res : SearchResult) :
  search H lines query options = Some res ->
  res = idleResult
  \/ res = invalidPattern
  \/ (res = truncatedResult (matches res) /\ length (matches res) = 500%nat)
  \/ res = completeResult (matches res).
Proof.
  unfold search, searchMarkdownLines; intros E.
  destruct (trim query) as [|c q]; [injection E as <-; now left|].
  assert (Hloop : forall scanLine,
             forLines scanLine lines 0 [] = Some res ->
             (res = truncatedResult (matches res) /\ length (matches res) = 500%nat)
             \/ res = completeResult (matches res)).
  { intros scanLine E'. eapply forLines_sound; [|exact E'].
    simpl; unfold MAX_MATCH_LINES; lia. }
  destruct (regex options).
  - unfold searchByRegex in E.
    destruct (RegExp_new H _ _) as [r|]; [|injection E as <-; right; now left].
    right; right; eapply Hloop; exact E.
  - right; right; eapply Hloop; exact E.
Qed.

(** ** A line with an occurrence is a matched line *)

Lemma GreedyScan_exists_iff (s q : jsstring) (ps : list Z) :
  GreedyScan s q 0 ps -> (ps <> [] <-> exists p, occursAt s q p).
Proof.
  intros G; inversion G as [from Hno | from p ps' Hp Hocc Hfirst G']; subst.
  - split; [congruence|]. intros [p Hocc]. exfalso; apply (Hno p); [|exact Hocc].
    destruct Hocc; lia.
  - split; [eauto | discriminate].
Qed.

Lemma hasOccurrence_substring (H : Host) (query : jsstring)
    (options : SearchOptions) (line : jsstring) :
  regex options = false ->
  foldCase H options query <> [] ->
  hasOccurrence H query options line ->
  exists occ first mlen,
    substringScanLine H query (foldCase H options query) options line
    = Some (occ, first, mlen) /\ occ <> 0.
Proof.
  intros Hre Hq Hocc; unfold hasOccurrence in Hocc; rewrite Hre in Hocc.
  destruct Hocc as (ps & p & G & Hin & Hflank).
  destruct (substringScanLine_spec H query _ options line Hq) as (ps' & G' & E).
  assert (ps' = ps) by (eapply GreedyScan_functional; eassumption); subst ps'.
  do 3 eexists; split; [exact E|].
  assert (Hc : In p (counted H line (foldCase H options query) (wholeWord options) ps)).
  { unfold counted; apply filter_In; split; [exact Hin|].
    destruct (wholeWord options); [|reflexivity]. simpl.
    apply hasWordBoundaries_iff; now apply Hflank. }
  destruct (counted H line _ _ ps); [contradiction | simpl; lia].
Qed.

Lemma hasOccurrence_regex (H : Host) (query : jsstring)
    (options : SearchOptions) (line : jsstring) (r : regexp H) :
  match_in_bounds H ->
  regex options = true ->
  RegExp_new H (regexSource query options) (regexFlags options) = Some r ->
  hasOccurrence H query options line ->
  exists occ first mlen,
    regexScanLine H r line = Some (occ, first, mlen) /\ occ <> 0.
Proof.
  intros bounds Hre Hr Hocc; unfold hasOccurrence in Hocc; rewrite Hre in Hocc.
  destruct Hocc as (r' & Hr' & Hm).
  rewrite Hr in Hr'; injection Hr' as <-.
  destruct (regexScanLine_spec H bounds r line) as (ms & G & E).
  do 3 eexists; split; [exact E|].
  inversion G as [c [Hout | Hnone] | c index text ms' Hin Ematch G']; subst.
  - pose proof (len_nonneg line); lia.
  - contradiction.
  - simpl; lia.
Qed.

Lemma occursAt_hasOccurrence (H : Host) (query : jsstring)
    (options : SearchOptions) (line : jsstring) (p : Z) :
  regex options = false -> wholeWord options = false ->
  foldCase H options query <> [] ->
  occursAt (foldCase H options line) (foldCase H options query) p ->
  hasOccurrence H query options line.
Proof.
  intros Hre Hww Hq Hocc; unfold hasOccurrence; rewrite Hre.
  destruct (substringWhile_spec H line (foldCase H options line) _ false Hq
              (length (foldCase H options line)) 0 0 (-1)
              ltac:(lia) ltac:(unfold len; lia)) as (ps & G & _).
  destruct ps as [|p' ps].
  - exfalso. apply (proj2 (GreedyScan_exists_iff _ _ _ G)); eauto.
  - exists (p' :: ps), p'; split; [exact G|]. split; [now left|].
    rewrite Hww; discriminate.
Qed.

(** ** Substring mode depends on the runtime through the text only *)

Lemma hasWordBoundaries_ext (H1 H2 : Host) (line : jsstring) :
  Forall (fun c => wordClass H1 c = wordClass H2 c) line ->
  forall i n, hasWordBoundaries H1 line i n = hasWordBoundaries H2 line i n.
Proof.
  intros Hagree.
  assert (Hchar : forall i, isWordCharacter H1 (charAtOrEmpty line i)
                            = isWordCharacter H2 (charAtOrEmpty line i)).
  { intros i; unfold charAtOrEmpty.
    destruct (i <? 0); [reflexivity|].
    destruct (nth_error line (Z.to_nat i)) as [c|] eqn:E; [|reflexivity].
    simpl. rewrite Forall_forall in Hagree.
    now rewrite (Hagree c (nth_error_In _ _ E)). }
  intros i n; unfold hasWordBoundaries; now rewrite !Hchar.
Qed.

Lemma substringWhile_ext (H1 H2 : Host) (line s q : jsstring) (whole : bool) :
  Forall (fun c => wordClass H1 c = wordClass H2 c) line ->
  forall fuel occ from first,
    substringWhile H1 fuel line s q whole occ from first
    = substringWhile H2 fuel line s q whole occ from first.
Proof.
  intros Hagree; induction fuel as [|fuel IH]; intros occ from first;
    cbn [substringWhile]; [reflexivity|].
  rewrite (hasWordBoundaries_ext H1 H2 line Hagree).
  destruct (from <? len s); [|reflexivity].
  destruct (indexOf s q from =? -1); [reflexivity | apply IH].
Qed.

Lemma forLines_ext (scan1 scan2 : jsstring -> option (Z * Z * Z))
    (lines : list jsstring) :
  Forall (fun line => scan1 line = scan2 line) lines ->
  forall index ms, forLines scan1 lines index ms = forLines scan2 lines index ms.
Proof.
  induction 1 as [|line rest E Hrest IH]; intros index ms; cbn [forLines];
    [reflexivity|].
  rewrite E. destruct (scan2 line) as [[[occ first] mlen]|]; [|reflexivity].
  now rewrite !IH.
Qed.

Lemma small_units (P : codeunit -> bool) :
  forallb P (map N.of_nat (seq 0 128)) = true ->
  forall c, (c < 128)%N -> P c = true.
Proof.
  intros Hall c Hc. rewrite forallb_forall in Hall. apply Hall.
  apply in_map_iff; exists (N.to_nat c); split; [lia|].
  apply in_seq; lia.
Qed.

Lemma asciiFaithful_wordClass (H1 H2 : Host) (s : jsstring) :
  asciiFaithful H1 -> asciiFaithful H2 -> isAscii s ->
  Forall (fun c => wordClass H1 c = wordClass H2 c) s.
Proof.
  intros (_ & HL1 & HN1) (_ & HL2 & HN2) Hs.
  eapply Forall_impl; [|exact Hs]. simpl; intros c Hc.
  unfold wordClass. now rewrite HL1, HN1, HL2, HN2.
Qed.

Lemma searchBySubstring_ascii (H1 H2 : Host) (lines : list jsstring)
    (query : jsstring) (options : SearchOptions) :
  asciiFaithful H1 -> asciiFaithful H2 ->
  Forall isAscii lines -> isAscii query ->
  searchBySubstring H1 lines query options = searchBySubstring H2 lines query options.
Proof.
  intros F1 F2 Hlines Hquery; unfold searchBySubstring.
  assert (Hlow : forall s, isAscii s -> toLowerCase H1 s = toLowerCase H2 s).
  { intros s Hs. destruct F1 as (L1 & _), F2 as (L2 & _). now rewrite L1, L2. }
  rewrite (Hlow query Hquery).
  apply forLines_ext.
  eapply Forall_impl; [|exact Hlines]. simpl; intros line Hline.
  unfold substringScanLine. rewrite (Hlow line Hline).
  now rewrite (substringWhile_ext H1 H2 line _ _ _
                 (asciiFaithful_wordClass H1 H2 line F1 F2 Hline)).
Qed.

(** ** The reference host *)

Lemma Ref_searchFrom_range (ic : bool) (p : Ref.pattern) (s : jsstring) :
  forall (n i j e : nat),
    Ref.searchFrom n ic p s i = Some (j, e) -> (i <= j <= i + n)%nat.
Proof.
  induction n as [|n IH]; intros i j e; simpl;
    destruct (Ref.matchAt ic p s i Some) as [e'|].
  - intros E; injection E as <- _; lia.
  - discriminate.
  - intros E; injection E as <- _; lia.
  - intros E; apply IH in E; lia.
Qed.

Lemma Ref_match_in_bounds : match_in_bounds Ref.host.
Proof.
  intros r s i index text; simpl; unfold Ref.RegExp_match.
  destruct (Z.ltb_spec i 0); [discriminate|].
  destruct (Z.ltb_spec (len s) i); [discriminate|]. simpl.
  destruct (Ref.searchFrom _ _ _ _ _) as [[j e]|] eqn:E; [|discriminate].
  intros E'; injection E' as <- <-.
  apply Ref_searchFrom_range in E.
  unfold len in *; rewrite length_firstn, length_skipn; lia.
Qed.

Lemma Ref_asciiFaithful : asciiFaithful Ref.host.
Proof.
  split; [|split]; simpl.
  - intros s Hs; unfold Ref.toLowerCase. apply map_ext_Forall.
    eapply Forall_impl; [|exact Hs]. simpl; intros c Hc.
    apply N.eqb_eq. revert c Hc.
    apply (small_units (fun c => (Ref.lowerUnit c =? asciiLower c)%N)).
    vm_compute; reflexivity.
  - intros c Hc. apply eqb_prop. revert c Hc.
    apply (small_units (fun c => eqb (Ref.isLetter c) (asciiLetter c))).
    vm_compute; reflexivity.
  - intros c Hc. apply eqb_prop. revert c Hc.
    apply (small_units (fun c => eqb (Ref.isNumber c) (asciiDigit c))).
    vm_compute; reflexivity.
Qed.

Lemma isAscii_check (s : jsstring) :
  forallb (fun c => (c <? 128)%N) s = true -> isAscii s.
Proof.
  intros E; apply Forall_forall; intros c Hc.
  rewrite forallb_forall in E. now apply N.ltb_lt, E.
Qed.

(** ** trim *)

Lemma trimStart_whitespace (s : jsstring) :
  Forall (fun c => isWhiteSpace c = true) s -> trimStart s = [].
Proof.
  induction 1 as [|c s Hc Hs IH]; simpl; [reflexivity|].
  now rewrite Hc.
Qed.

Lemma trim_whitespace (s : jsstring) :
  Forall (fun c => isWhiteSpace c = true) s -> trim s = [].
Proof.
  intros Hs; unfold trim. now rewrite (trimStart_whitespace s Hs).
Qed.

(** ** One line, many lines *)

Lemma GreedyScan_query_nonempty (s : jsstring) (from : Z) (ps : list Z) :
  GreedyScan s [] from ps -> False.
Proof.
  induction 1 as [from Hno | from p ps Hp Hocc Hfirst G IH]; [|exact IH].
  apply (Hno (Z.max from 0)); [lia|]. split; [lia | reflexivity].
Qed.

Lemma forLines_one_line (scanLine : jsstring -> option (Z * Z * Z))
    (line : jsstring) (occ first mlen : Z) :
  scanLine line = Some (occ, first, mlen) ->
  forLines scanLine [line] 0 []
  = Some (if occ =? 0 then completeResult []
          else completeResult [ {| lineNumber := 1; occurrences := occ;
                                   preview := createPreview line first mlen |} ]).
Proof.
  intros E; cbn [forLines]; rewrite E.
  destruct (occ =? 0); reflexivity.
Qed.

Lemma searchBySubstring_one_line (H : Host) (line query : jsstring)
    (options : SearchOptions) :
  foldCase H options query <> [] ->
  exists candidates,
    GreedyScan (foldCase H options line) (foldCase H options query) 0 candidates
    /\ substringScanLine H query (foldCase H options query) options line
       = Some (Z.of_nat (length (counted H line (foldCase H options query)
                                   (wholeWord options) candidates)),
               hd (-1) (counted H line (foldCase H options query)
                          (wholeWord options) candidates),
               len query)
    /\ searchBySubstring H [line] query options
       = Some (oneLineResult line query
                 (counted H line (foldCase H options query)
                    (wholeWord options) candidates)).
Proof.
  intros Hq.
  destruct (substringScanLine_spec H query _ options line Hq) as (ps & G & E).
  exists ps; split; [exact G|]. split; [exact E|].
  unfold searchBySubstring; fold (foldCase H options query).
  rewrite (forLines_one_line _ _ _ _ _ E).
  destruct (counted H line _ _ ps) as [|p cs]; [reflexivity|].
  destruct (Z.eqb_spec (Z.of_nat (length (p :: cs))) 0) as [E0|_];
    [simpl in E0; lia|].
  unfold completeResult, oneLineResult; cbn [fold_left occurrences hd length].
  f_equal.
Qed.

Lemma counted_all (H : Host) (line q : jsstring) (ps : list Z) :
  counted H line q false ps = ps.
Proof.
  unfold counted; simpl. induction ps as [|p ps IH]; simpl; [reflexivity | now rewrite IH].
Qed.

Lemma counted_flanked (H : Host) (line q : jsstring) (ps : list Z)
    (flanked : Z -> bool) :
  (forall p, flanked p = true <-> flankedByNonWord H line p (len q)) ->
  counted H line q true ps = filter flanked ps.
Proof.
  intros Hf; unfold counted; apply filter_ext; intros p; simpl.
  destruct (flanked p) eqn:E.
  - now apply hasWordBoundaries_iff, Hf.
  - apply not_true_is_false; intros E'.
    apply hasWordBoundaries_iff, Hf in E'; congruence.
Qed.

Lemma matchedLines_numbers (scanLine : jsstring -> option (Z * Z * Z))
    (lines : list jsstring) :
  Forall (fun line => exists occ first mlen,
              scanLine line = Some (occ, first, mlen) /\ occ <> 0) lines ->
  forall index,
    map lineNumber (matchedLines scanLine lines index)
    = map (fun k => index + 1 + Z.of_nat k) (seq 0 (length lines)).
Proof.
  induction 1 as [|line rest (occ & first & mlen & E & Hocc) Hrest IH];
    intros index; cbn [matchedLines length seq map]; [reflexivity|].
  rewrite E. destruct (Z.eqb_spec occ 0); [contradiction|].
  cbn [map lineNumber]. f_equal; [lia|].
  rewrite IH, <- seq_shift, map_map. apply map_ext; intros; lia.
Qed.

Lemma hasOccurrence_scanOf (H : Host) (query : jsstring) (options : SearchOptions)
    (scan : jsstring -> option (Z * Z * Z)) (line : jsstring) :
  match_in_bounds H ->
  scanOf H query options = Some scan ->
  hasOccurrence H query options line ->
  exists occ first mlen, scan line = Some (occ, first, mlen) /\ occ <> 0.
Proof.
  intros bounds Hscan Hocc; unfold scanOf in Hscan.
  destruct (regex options) eqn:Hre.
  - destruct (RegExp_new H _ _) as [r|] eqn:Hr; [|discriminate].
    injection Hscan as <-. eapply hasOccurrence_regex; eassumption.
  - injection Hscan as <-. apply hasOccurrence_substring; [exact Hre | | exact Hocc].
    unfold hasOccurrence in Hocc; rewrite Hre in Hocc.
    destruct Hocc as (ps & p & G & _). intros Hq; rewrite Hq in G.
    eapply GreedyScan_query_nonempty; exact G.
Qed.

Lemma scanOf_total (H : Host) (query : jsstring) (options : SearchOptions)
    (scan : jsstring -> option (Z * Z * Z)) :
  match_in_bounds H ->
  scanOf H query options = Some scan ->
  forall line, scan line <> None.
Proof.
  intros bounds Hscan line; unfold scanOf in Hscan.
  destruct (regex options).
  - destruct (RegExp_new H _ _) as [r|]; [|discriminate].
    injection Hscan as <-. now apply regexScanLine_total.
  - injection Hscan as <-. apply substringScanLine_total.
Qed.

Lemma search_scanOf (H : Host) (lines : list jsstring) (query : jsstring)
    (options : SearchOptions) (scan : jsstring -> option (Z * Z * Z)) :
  trim query <> [] ->
  scanOf H (trim query) options = Some scan ->
  search H lines query options = forLines scan lines 0 [].
Proof.
  intros Hq Hscan; unfold search, searchMarkdownLines, scanOf in *.
  destruct (trim query) as [|c q]; [congruence|].
  destruct (regex options).
  - unfold searchByRegex.
    destruct (RegExp_new H _ _) as [r|]; [|discriminate].
    now injection Hscan as <-.
  - now injection Hscan as <-.
Qed.

Lemma isAscii_trim (s : jsstring) : isAscii s -> isAscii (trim s).
Proof.
  assert (Hstart : forall t, isAscii t -> isAscii (trimStart t)).
  { induction 1 as [|c t Hc Ht IH]; simpl; [constructor|].
    destruct (isWhiteSpace c); [exact IH | now constructor]. }
  intros Hs; unfold trim, isAscii in *.
  apply Forall_rev, Hstart, Forall_rev, Hstart, Hs.
Qed.

Lemma search_substring_ascii (H : Host) (lines : list jsstring)
    (query : jsstring) (options : SearchOptions) :
  asciiFaithful H ->
  Forall isAscii lines -> isAscii query -> regex options = false ->
  search H lines query options = search Ref.host lines query options.
Proof.
  intros HF Hlines Hquery Hre; unfold search, searchMarkdownLines.
  pose proof (isAscii_trim query Hquery) as Hq.
  destruct (trim query) as [|c q]; [reflexivity|].
  rewrite Hre.
  now apply searchBySubstring_ascii; [| apply Ref_asciiFaithful | |].
Qed.

Lemma todoLines_hasOccurrence (n : nat) :
  Forall (hasOccurrence Ref.host (lit "todo") (opts true false false)) (todoLines n).
Proof.
  apply Forall_forall; intros line Hline.
  apply in_map_iff in Hline as (k & <- & _).
  apply occursAt_hasOccurrence with (p := 0); try reflexivity; [discriminate|].
  split; [lia | reflexivity].
Qed.

(** * Properties of the rest of the component *)

(** ** splitLines *)

(** The side condition of an induction on the length of the text. *)
Ltac shorter := subst; simpl; unfold lt; repeat constructor.

Lemma splitLines_nonempty (s : jsstring) : splitLines s <> [].
Proof.
  induction s as [|c rest IH]; cbn [splitLines]; [discriminate|].
  destruct (c =? 10)%N; [discriminate|].
  destruct rest as [|d rest']; [destruct (splitLines []); discriminate|].
  destruct ((c =? 13)%N && (d =? 10)%N); [discriminate|].
  destruct (splitLines (d :: rest')); discriminate.
Qed.

(** The two ways a code unit goes into the lines: it ends a line (alone,
    or as the carriage return of a pair), or it is the first of the first
    line of what follows. *)
Lemma splitLines_cons (c : codeunit) (rest : jsstring) :
  (c = 10%N /\ splitLines (c :: rest) = [] :: splitLines rest)
  \/ (c = 13%N /\ exists rest', rest = 10%N :: rest'
                                /\ splitLines (c :: rest) = [] :: splitLines rest')
  \/ (c <> 10%N /\ (c = 13%N -> forall rest', rest <> 10%N :: rest')
      /\ exists line lines, splitLines rest = line :: lines
                            /\ splitLines (c :: rest) = (c :: line) :: lines).
Proof.
  cbn [splitLines].
  destruct (N.eqb_spec c 10) as [->|Hlf]; [left; split; reflexivity|].
  right.
  destruct (splitLines rest) as [|line lines] eqn:E;
    [exfalso; exact (splitLines_nonempty rest E)|].
  destruct rest as [|d rest'].
  - right. split; [exact Hlf|]. split; [intros _ rest'; discriminate|].
    exists line, lines; split; reflexivity.
  - destruct (N.eqb_spec c 13) as [->|Hcr]; simpl.
    + destruct (N.eqb_spec d 10) as [->|Hd].
      * left. split; [reflexivity|]. exists rest'; split; reflexivity.
      * right. split; [exact Hlf|].
        split; [intros _ r E'; injection E' as -> _; congruence|].
        exists line, lines; split; reflexivity.
    + right. split; [exact Hlf|]. split; [congruence|].
      exists line, lines; split; reflexivity.
Qed.

Lemma splitLines_no_line_feed (s : jsstring) :
  Forall (fun line => ~ In 10%N line) (splitLines s).
Proof.
  remember (length s) as n eqn:Hn.
  revert s Hn; induction n as [n IH] using lt_wf_ind; intros s Hn.
  destruct s as [|c rest]; [repeat constructor; intros []|].
  destruct (splitLines_cons c rest)
    as [[_ E] | [(_ & rest' & -> & E) | (Hc & _ & line & lines & E & E')]].
  - rewrite E; constructor; [intros []|].
    apply (IH (length rest)); [shorter | reflexivity].
  - rewrite E; constructor; [intros []|].
    apply (IH (length rest')); [shorter | reflexivity].
  - rewrite E'.
    assert (Hrest : Forall (fun line => ~ In 10%N line) (splitLines rest))
      by (apply (IH (length rest)); [shorter | reflexivity]).
    rewrite E in Hrest; inversion Hrest as [|? ? Hline Hlines]; subst.
    constructor; [|exact Hlines].
    intros [Hin|Hin]; [congruence | contradiction].
Qed.

Lemma joinLines_cons (line : jsstring) (lines : list jsstring) :
  lines <> [] -> joinLines (line :: lines) = line ++ 10%N :: joinLines lines.
Proof. destruct lines; [congruence | reflexivity]. Qed.

Lemma crlfToLf_cons (c : codeunit) (rest : jsstring) :
  (c = 13%N -> forall rest', rest <> 10%N :: rest') ->
  crlfToLf (c :: rest) = c :: crlfToLf rest.
Proof.
  intros Hc; cbn [crlfToLf]. destruct rest as [|d rest']; [reflexivity|].
  destruct (N.eqb_spec c 13) as [->|]; [|reflexivity].
  destruct (N.eqb_spec d 10) as [->|]; [|reflexivity].
  exfalso; exact (Hc eq_refl rest' eq_refl).
Qed.

Lemma joinLines_splitLines (s : jsstring) :
  joinLines (splitLines s) = crlfToLf s.
Proof.
  remember (length s) as n eqn:Hn.
  revert s Hn; induction n as [n IH] using lt_wf_ind; intros s Hn.
  destruct s as [|c rest]; [reflexivity|].
  destruct (splitLines_cons c rest)
    as [[-> E] | [(-> & rest' & -> & E) | (Hc & Hcr & line & lines & E & E')]].
  - rewrite E, joinLines_cons by apply splitLines_nonempty.
    rewrite (IH (length rest)) by (first [reflexivity | shorter]).
    rewrite crlfToLf_cons by discriminate. reflexivity.
  - rewrite E, joinLines_cons by apply splitLines_nonempty.
    rewrite (IH (length rest')) by (first [reflexivity | shorter]).
    change (crlfToLf (13%N :: 10%N :: rest')) with (crlfToLf (10%N :: rest')).
    rewrite crlfToLf_cons by discriminate. reflexivity.
  - rewrite E', crlfToLf_cons by exact Hcr.
    rewrite <- (IH (length rest)) by (first [reflexivity | shorter]).
    rewrite E. destruct lines; reflexivity.
Qed.

Lemma splitLines_app_line_feed (line rest : jsstring) :
  ~ In 10%N line -> ~ endsWithCR line ->
  splitLines (line ++ 10%N :: rest) = line :: splitLines rest.
Proof.
  induction line as [|c line IH]; intros Hlf Hcr.
  - destruct (splitLines_cons 10%N rest)
      as [[_ E] | [(E & _) | (E & _)]]; [exact E | discriminate | congruence].
  - assert (IH' : splitLines (line ++ 10%N :: rest) = line :: splitLines rest).
    { apply IH; [intros Hin; apply Hlf; now right|].
      intros [front ->]. apply Hcr. exists (c :: front); reflexivity. }
    change ((c :: line) ++ 10%N :: rest) with (c :: (line ++ 10%N :: rest)).
    destruct (splitLines_cons c (line ++ 10%N :: rest))
      as [[-> _] | [(-> & rest' & E & _) | (_ & _ & l & ls & E & E')]].
    + exfalso; apply Hlf; now left.
    + exfalso. destruct line as [|d line].
      * apply Hcr; exists []; reflexivity.
      * injection E as -> _. apply Hlf; right; now left.
    + rewrite E'. rewrite IH' in E. now injection E as <- <-.
Qed.

Lemma splitLines_line (line : jsstring) :
  ~ In 10%N line -> splitLines line = [line].
Proof.
  induction line as [|c line IH]; intros Hlf; [reflexivity|].
  destruct (splitLines_cons c line)
    as [[-> _] | [(-> & rest' & -> & _) | (_ & _ & l & ls & E & E')]].
  - exfalso; apply Hlf; now left.
  - exfalso; apply Hlf; right; now left.
  - rewrite E'. rewrite IH in E by (intros Hin; apply Hlf; now right).
    now injection E as <- <-.
Qed.

Lemma splitLines_joinLines (lines : list jsstring) (last : jsstring) :
  Forall (fun line => ~ In 10%N line /\ ~ endsWithCR line) lines ->
  ~ In 10%N last ->
  splitLines (joinLines (lines ++ [last])) = lines ++ [last].
Proof.
  intros Hlines Hlast; induction Hlines as [|line lines [Hlf Hcr] _ IH]; simpl app.
  - simpl. now apply splitLines_line.
  - rewrite joinLines_cons by (destruct lines; discriminate).
    rewrite splitLines_app_line_feed by assumption. now rewrite IH.
Qed.

Lemma splitLines_count (s : jsstring) :
  length (splitLines s) = S (count_occ N.eq_dec s 10%N).
Proof.
  remember (length s) as n eqn:Hn.
  revert s Hn; induction n as [n IH] using lt_wf_ind; intros s Hn.
  destruct s as [|c rest]; [reflexivity|].
  destruct (splitLines_cons c rest)
    as [[-> E] | [(-> & rest' & -> & E) | (Hc & _ & line & lines & E & E')]].
  - rewrite E; simpl length. rewrite (IH (length rest)) by (first [reflexivity | shorter]).
    rewrite count_occ_cons_eq by reflexivity. reflexivity.
  - rewrite E; simpl length. rewrite (IH (length rest')) by (first [reflexivity | shorter]).
    rewrite count_occ_cons_neq by discriminate.
    rewrite count_occ_cons_eq by reflexivity. reflexivity.
  - rewrite E'. rewrite count_occ_cons_neq by congruence.
    rewrite <- (IH (length rest)) by (first [reflexivity | shorter]).
    rewrite E; reflexivity.
Qed.

(** ** Pages *)

Lemma visibleMatches_length (ms : list LineMatch) (page : Z) :
  (length (visibleMatches ms page) <= 100)%nat.
Proof.
  unfold visibleMatches, sliceArray, MATCHES_PER_PAGE.
  rewrite length_firstn, length_skipn.
  destruct (Z.ltb_spec ((page - 1) * 100) 0), (Z.ltb_spec (page * 100) 0); lia.
Qed.

Lemma visibleMatches_page (ms : list LineMatch) (page : Z) :
  1 <= page ->
  visibleMatches ms page = firstn 100 (skipn (100 * (Z.to_nat page - 1)) ms).
Proof.
  intros Hpage; unfold visibleMatches, sliceArray, MATCHES_PER_PAGE.
  destruct (Z.ltb_spec ((page - 1) * 100) 0); [lia|].
  destruct (Z.ltb_spec (page * 100) 0); [lia|].
  set (n := Z.of_nat (length ms)).
  destruct (Z.le_gt_cases n ((page - 1) * 100)) as [Hbeyond|Hin].
  - rewrite !skipn_all2 by (unfold n in *; lia). now rewrite !firstn_nil.
  - replace (Z.to_nat (Z.min ((page - 1) * 100) n)) with (100 * (Z.to_nat page - 1))%nat by lia.
    destruct (Z.le_gt_cases (page * 100) n) as [Hfull|Hlast].
    + f_equal; lia.
    + rewrite !firstn_all2; [reflexivity | |]; rewrite length_skipn; unfold n in *; lia.
Qed.

Lemma chunks_concat {A : Type} (n : nat) :
  forall (items : list A),
    (length items <= 100 * n)%nat ->
    concat (map (fun i => firstn 100 (skipn (100 * i) items)) (seq 0 n)) = items.
Proof.
  induction n as [|n IH]; intros items Hlen.
  - destruct items; [reflexivity | simpl in Hlen; lia].
  - cbn [seq map concat]. rewrite <- seq_shift, map_map.
    replace (100 * 0)%nat with 0%nat by lia. cbn [skipn].
    transitivity (firstn 100 items ++ skipn 100 items); [|apply firstn_skipn].
    f_equal.
    etransitivity; [|apply (IH (skipn 100 items)); rewrite length_skipn; lia].
    f_equal. apply map_ext; intros i.
    rewrite skipn_skipn. do 2 f_equal; lia.
Qed.

Lemma pageCount_spec (ms : list LineMatch) :
  let n := Z.of_nat (length ms) in
  100 * (pageCount ms - 1) < n <= 100 * pageCount ms \/ (n = 0 /\ pageCount ms = 0).
Proof.
  unfold pageCount, MATCHES_PER_PAGE; cbv zeta.
  pose proof (Z.div_mod (Z.of_nat (length ms) + 100 - 1) 100 ltac:(lia)).
  pose proof (Z.mod_pos_bound (Z.of_nat (length ms) + 100 - 1) 100 ltac:(lia)).
  lia.
Qed.

(** ** Results of the loop, whatever the scans do *)

Lemma forLines_result (scanLine : jsstring -> option (Z * Z * Z))
    (lines : list jsstring) :
  forall (index : Z) (ms : list LineMatch) (res : SearchResult),
    Z.of_nat (length ms) <= MAX_MATCH_LINES ->
    forLines scanLine lines index ms = Some res ->
    let all := ms ++ matchedLines scanLine lines index in
    res = if Z.of_nat (length all) <=? MAX_MATCH_LINES
          then completeResult all
          else truncatedResult (firstn 500 all).
Proof.
  induction lines as [|line rest IH]; intros index ms res Hms E;
    cbn [forLines matchedLines] in *; cbv zeta.
  - injection E as <-. rewrite app_nil_r.
    destruct (Z.leb_spec (Z.of_nat (length ms)) MAX_MATCH_LINES); [reflexivity | lia].
  - destruct (scanLine line) as [[[occ first] mlen]|]; [|discriminate].
    destruct (occ =? 0); [apply IH; assumption|].
    destruct (Z.leb_spec MAX_MATCH_LINES (Z.of_nat (length ms))) as [Hfull|Hroom].
    + injection E as <-. unfold MAX_MATCH_LINES in *.
      rewrite length_app; cbn [length].
      destruct (Z.leb_spec (Z.of_nat (length ms + S (length (matchedLines scanLine rest (index + 1))))) 500);
        [lia|].
      rewrite firstn_app.
      replace (500 - length ms)%nat with 0%nat by lia.
      rewrite firstn_all2 by lia. cbn [firstn]. now rewrite app_nil_r.
    + apply IH in E; [|rewrite length_app; cbn [length]; lia].
      cbv zeta in E. now rewrite <- app_assoc in E.
Qed.

(** When the loop returns without truncation, it has scanned every line. *)
Lemma forLines_complete_scanned (scanLine : jsstring -> option (Z * Z * Z))
    (lines : list jsstring) :
  forall (index : Z) (ms : list LineMatch) (res : SearchResult),
    forLines scanLine lines index ms = Some res ->
    isTruncated res = false ->
    Forall (fun line => scanLine line <> None) lines.
Proof.
  induction lines as [|line rest IH]; intros index ms res E Htrunc;
    cbn [forLines] in E; [constructor|].
  destruct (scanLine line) as [[[occ first] mlen]|] eqn:Escan; [|discriminate].
  constructor; [rewrite Escan; discriminate|].
  destruct (occ =? 0); [eapply IH; eassumption|].
  destruct (MAX_MATCH_LINES <=? Z.of_nat (length ms)).
  - injection E as <-. discriminate.
  - eapply IH; eassumption.
Qed.

Lemma matchedLines_In (scanLine : jsstring -> option (Z * Z * Z))
    (lines : list jsstring) :
  forall (index : Z) (m : LineMatch),
    In m (matchedLines scanLine lines index)
    <-> exists (k : nat) line occ first mlen,
          nth_error lines k = Some line
          /\ scanLine line = Some (occ, first, mlen)
          /\ occ <> 0
          /\ m = {| lineNumber := index + Z.of_nat k + 1; occurrences := occ;
                    preview := createPreview line first mlen |}.
Proof.
  induction lines as [|line rest IH]; intros index m; cbn [matchedLines].
  - split; [intros [] | intros ([|k] & ? & ? & ? & ? & E & _); discriminate].
  - assert (Hshift : In m (matchedLines scanLine rest (index + 1))
                      <-> exists (k : nat) l occ first mlen,
                            nth_error (line :: rest) (S k) = Some l
                            /\ scanLine l = Some (occ, first, mlen) /\ occ <> 0
                            /\ m = {| lineNumber := index + Z.of_nat (S k) + 1;
                                      occurrences := occ;
                                      preview := createPreview l first mlen |}).
    { rewrite IH. split; intros (k & l & occ & first & mlen & Hk & Hs & Ho & ->);
        exists k, l, occ, first, mlen; (split; [exact Hk|]); (split; [exact Hs|]);
        (split; [exact Ho|]); f_equal; lia. }
    destruct (scanLine line) as [[[occ first] mlen]|] eqn:Escan.
    + destruct (Z.eqb_spec occ 0) as [Hz|Hnz].
      * rewrite Hshift. split.
        -- intros (k & rest'); exists (S k); exact rest'.
        -- intros ([|k] & l & o & f & ml & Hk & Hs & Ho & Hm); [|eauto 10].
           simpl in Hk; injection Hk as <-. rewrite Escan in Hs. congruence.
      * cbn [In]. rewrite Hshift. split.
        -- intros [<- | (k & rest')]; [|exists (S k); exact rest'].
           exists 0%nat, line, occ, first, mlen. repeat split; try assumption.
           f_equal; lia.
        -- intros ([|k] & l & o & f & ml & Hk & Hs & Ho & Hm); [|right; eauto 10].
           simpl in Hk; injection Hk as <-. rewrite Escan in Hs.
           injection Hs as <- <- <-. left. rewrite Hm. f_equal; lia.
    + rewrite Hshift. split.
      * intros (k & rest'); exists (S k); exact rest'.
      * intros ([|k] & l & o & f & ml & Hk & Hs & Ho & Hm); [|eauto 10].
        simpl in Hk; injection Hk as <-. rewrite Escan in Hs. discriminate.
Qed.

(** ** Counts do not go down *)

Lemma substringWhile_grows (H : Host) (line s q : jsstring) (whole : bool) :
  forall fuel occ from first occ' first',
    substringWhile H fuel line s q whole occ from first = Some (occ', first') ->
    occ <= occ'.
Proof.
  induction fuel as [|fuel IH]; intros occ from first occ' first';
    cbn [substringWhile]; destruct (from <? len s);
    try discriminate; try (intros E; injection E as <- _; lia).
  destruct (indexOf s q from =? -1); [intros E; injection E as <- _; lia|].
  intros E; apply IH in E.
  destruct (negb whole || hasWordBoundaries H line (indexOf s q from) (len q)); lia.
Qed.

Lemma regexWhile_grows (H : Host) (r : regexp H) (line : jsstring) :
  forall fuel occ first firstLen result lastIndex occ' first' firstLen',
    regexWhile H fuel r line occ first firstLen result lastIndex
    = Some (occ', first', firstLen') ->
    occ <= occ'.
Proof.
  induction fuel as [|fuel IH]; intros occ first firstLen result lastIndex occ' first' firstLen';
    cbn [regexWhile]; destruct result as [[index text]|];
    try discriminate; try (intros E; injection E as <- _ _; lia).
  destruct (exec H r line _) as [result' lastIndex'].
  intros E; apply IH in E; lia.
Qed.

Lemma crlfToLf_without_pair (s : jsstring) :
  (forall front back, s <> front ++ 13%N :: 10%N :: back) ->
  crlfToLf s = s.
Proof.
  induction s as [|c rest IH]; intros Hpair; [reflexivity|].
  rewrite crlfToLf_cons.
  - f_equal. apply IH. intros front back ->.
    apply (Hpair (c :: front) back). reflexivity.
  - intros -> rest' ->. apply (Hpair [] rest'). reflexivity.
Qed.

(** ** The shape of a result of [search] *)

Lemma In_firstn {A : Type} (n : nat) (l : list A) (x : A) :
  In x (firstn n l) -> In x l.
Proof.
  intros Hin. rewrite <- (firstn_skipn n l). apply in_or_app; now left.
Qed.

Lemma StronglySorted_firstn {A : Type} (R : A -> A -> Prop) (n : nat) (l : list A) :
  StronglySorted R l -> StronglySorted R (firstn n l).
Proof.
  intros Hs; revert n; induction Hs as [|a l Hs IH Ha]; intros [|n]; simpl;
    try constructor; [apply IH|].
  apply Forall_forall; intros x Hx. rewrite Forall_forall in Ha.
  apply Ha. eapply In_firstn; exact Hx.
Qed.

Lemma search_form (H : Host) (lines : list jsstring) (query : jsstring)
    (options : SearchOptions) (res : SearchResult) :
  search H lines query options = Some res ->
  (trim query = [] /\ res = idleResult)
  \/ (trim query <> [] /\ scanOf H (trim query) options = None
      /\ res = invalidPattern)
  \/ (trim query <> [] /\ exists scan,
        scanOf H (trim query) options = Some scan
        /\ forLines scan lines 0 [] = Some res).
Proof.
  unfold search, searchMarkdownLines, scanOf; intros E.
  destruct (trim query) as [|c q]; [injection E as <-; left; now split|].
  right. destruct (regex options).
  - unfold searchByRegex in E.
    destruct (RegExp_new H _ _) as [r|].
    + right; split; [discriminate|]. eexists; split; [reflexivity | exact E].
    + injection E as <-. left; repeat split; discriminate.
  - right; split; [discriminate|]. eexists; split; [reflexivity | exact E].
Qed.

Lemma search_matches (H : Host) (lines : list jsstring) (query : jsstring)
    (options : SearchOptions) (res : SearchResult)
    (scan : jsstring -> option (Z * Z * Z)) :
  forLines scan lines 0 [] = Some res ->
  matches res = firstn 500 (matchedLines scan lines 0)
  /\ (isTruncated res = false ->
      matches res = matchedLines scan lines 0
      /\ Forall (fun line => scan line <> None) lines)
  /\ (isTruncated res = true -> (500 < length (matchedLines scan lines 0))%nat).
Proof.
  intros E.
  pose proof (forLines_result scan lines 0 [] res
                ltac:(simpl; unfold MAX_MATCH_LINES; lia) E) as Hres.
  cbv zeta in Hres; cbn [app] in Hres; unfold MAX_MATCH_LINES in Hres.
  destruct (Z.leb_spec (Z.of_nat (length (matchedLines scan lines 0))) 500)
    as [Hfew|Hmany]; subst res; cbn [matches isTruncated completeResult truncatedResult].
  - split; [symmetry; apply firstn_all2; lia|].
    split; [|discriminate]. intros _; split; [reflexivity|].
    eapply forLines_complete_scanned; [exact E | reflexivity].
  - split; [reflexivity|]. split; [discriminate | intros _; lia].
Qed.

Lemma scanOf_nonneg (H : Host) (query : jsstring) (options : SearchOptions)
    (scan : jsstring -> option (Z * Z * Z)) (line : jsstring) (occ first mlen : Z) :
  scanOf H query options = Some scan ->
  scan line = Some (occ, first, mlen) ->
  0 <= occ.
Proof.
  unfold scanOf; intros Hscan E. destruct (regex options).
  - destruct (RegExp_new H _ _) as [r|]; [|discriminate].
    injection Hscan as <-. unfold regexScanLine in E.
    destruct (exec H r line 0) as [result lastIndex].
    now apply regexWhile_grows in E.
  - injection Hscan as <-. unfold substringScanLine in E.
    destruct (substringWhile _ _ _ _ _ _ _ _ _) as [[o f]|] eqn:Ew; [|discriminate].
    injection E as <- _ _. now apply substringWhile_grows in Ew.
Qed.

(** A scan that counts an occurrence has found one, and a line that has
    one is counted. *)
Lemma scan_counts_iff (H : Host) (query : jsstring) (options : SearchOptions)
    (scan : jsstring -> option (Z * Z * Z)) (line : jsstring) :
  (regex options = true -> match_in_bounds H) ->
  (regex options = false -> foldCase H options query <> []) ->
  scanOf H query options = Some scan ->
  (exists occ first mlen, scan line = Some (occ, first, mlen) /\ occ <> 0)
  <-> hasOccurrence H query options line.
Proof.
  intros Hbounds Hq Hscan; unfold scanOf in Hscan.
  destruct (regex options) eqn:Hre.
  - specialize (Hbounds eq_refl).
    destruct (RegExp_new H _ _) as [r|] eqn:Hr; [|discriminate].
    injection Hscan as <-. split.
    + intros (occ & first & mlen & E & Hocc).
      unfold hasOccurrence; rewrite Hre. exists r; split; [exact Hr|].
      destruct (regexScanLine_spec H Hbounds r line) as (ms & G & E').
      rewrite E in E'; injection E' as -> _ _.
      inversion G as [c Hend | c index text ms' Hin Ematch G']; subst.
      * contradiction.
      * rewrite Ematch; discriminate.
    + intros Hocc. eapply hasOccurrence_regex; eassumption.
  - specialize (Hq eq_refl). injection Hscan as <-. split.
    + intros (occ & first & mlen & E & Hocc).
      unfold hasOccurrence; rewrite Hre.
      destruct (substringScanLine_spec H query _ options line Hq) as (ps & G & E').
      rewrite E in E'; injection E' as -> _ _.
      destruct (counted H line _ _ ps) as [|p cs] eqn:Ec; [contradiction|].
      assert (Hp : In p (counted H line (foldCase H options query) (wholeWord options) ps))
        by (rewrite Ec; now left).
      unfold counted in Hp; apply filter_In in Hp as [Hin Hok].
      exists ps, p; split; [exact G|]. split; [exact Hin|].
      intros Hww; rewrite Hww in Hok; simpl in Hok.
      now apply hasWordBoundaries_iff.
    + intros Hocc. now apply hasOccurrence_substring.
Qed.

Lemma hasOccurrence_literal (H : Host) (query : jsstring)
    (options : SearchOptions) (line : jsstring) :
  regex options = false -> wholeWord options = false ->
  foldCase H options query <> [] ->
  hasOccurrence H query options line
  <-> exists p, occursAt (foldCase H options line) (foldCase H options query) p.
Proof.
  intros Hre Hww Hq; split.
  - unfold hasOccurrence; rewrite Hre. intros (ps & p & G & Hin & _).
    apply (GreedyScan_exists_iff _ _ _ G). intros ->; contradiction.
  - intros [p Hp]. eapply occursAt_hasOccurrence; eassumption.
Qed.

Lemma search_scanned (H : Host) (lines : list jsstring) (query : jsstring)
    (options : SearchOptions) (res : SearchResult) :
  trim query <> [] ->
  search H lines query options = Some res ->
  (scanOf H (trim query) options = None /\ matches res = []
   /\ isTruncated res = false)
  \/ exists scan,
       scanOf H (trim query) options = Some scan
       /\ forLines scan lines 0 [] = Some res.
Proof.
  intros Hq E.
  destruct (search_form H lines query options res E)
    as [[Hempty _] | [(_ & Hnone & ->) | (_ & scan & Hscan & Hrun)]].
  - contradiction.
  - left; repeat split; assumption.
  - right; eauto.
Qed.

Lemma reported_sound (H : Host) (lines : list jsstring) (query : jsstring)
    (options : SearchOptions) (res : SearchResult) (m : LineMatch) :
  (regex options = true -> match_in_bounds H) ->
  (regex options = false -> foldCase H options (trim query) <> []) ->
  trim query <> [] ->
  search H lines query options = Some res ->
  In m (matches res) ->
  exists (k : nat) line,
    nth_error lines k = Some line
    /\ lineNumber m = Z.of_nat k + 1
    /\ hasOccurrence H (trim query) options line.
Proof.
  intros Hbounds Hfold Hq E Hin.
  destruct (search_scanned H lines query options res Hq E)
    as [(_ & Hnil & _) | (scan & Hscan & Hrun)];
    [rewrite Hnil in Hin; contradiction|].
  destruct (search_matches H lines query options res scan Hrun) as (Hms & _).
  rewrite Hms in Hin; apply In_firstn in Hin.
  apply matchedLines_In in Hin as (k & line & occ & first & mlen & Hk & Hs & Ho & ->).
  exists k, line; split; [exact Hk|]. split; [simpl; lia|].
  apply (scan_counts_iff H _ options scan line Hbounds Hfold Hscan). eauto.
Qed.

Lemma reported_complete (H : Host) (lines : list jsstring) (query : jsstring)
    (options : SearchOptions) (res : SearchResult) (k : nat) (line : jsstring) :
  (regex options = true -> match_in_bounds H) ->
  (regex options = false -> foldCase H options (trim query) <> []) ->
  trim query <> [] ->
  search H lines query options = Some res ->
  isTruncated res = false ->
  nth_error lines k = Some line ->
  hasOccurrence H (trim query) options line ->
  exists m, In m (matches res) /\ lineNumber m = Z.of_nat k + 1.
Proof.
  intros Hbounds Hfold Hq E Htrunc Hk Hocc.
  destruct (search_scanned H lines query options res Hq E)
    as [(Hnone & _) | (scan & Hscan & Hrun)].
  - exfalso. unfold hasOccurrence in Hocc; unfold scanOf in Hnone.
    destruct (regex options); [|discriminate].
    destruct Hocc as (r & Hr & _). rewrite Hr in Hnone; discriminate.
  - destruct (search_matches H lines query options res scan Hrun) as (_ & Hall & _).
    destruct (Hall Htrunc) as [Hms _].
    destruct (proj2 (scan_counts_iff H _ options scan line Hbounds Hfold Hscan) Hocc)
      as (occ & first & mlen & Hs & Ho).
    eexists; split.
    + rewrite Hms. apply matchedLines_In. exists k, line, occ, first, mlen.
      repeat split; [exact Hk | exact Hs | exact Ho].
    + simpl; lia.
Qed.

(** ** Previews *)

Lemma firstn_plus {A : Type} (n m : nat) (l : list A) :
  firstn (n + m) l = firstn n l ++ firstn m (skipn n l).
Proof.
  revert l; induction n as [|n IH]; intros l; [reflexivity|].
  destruct l as [|a l]; simpl; [now rewrite firstn_nil | now rewrite IH].
Qed.

Lemma slice_split (s : jsstring) (a m b : Z) :
  0 <= a <= m -> m <= b <= len s ->
  slice s a b = slice s a m ++ slice s m b.
Proof.
  intros Ha Hb. rewrite !slice_inside by lia.
  replace (Z.to_nat (b - a)) with (Z.to_nat (m - a) + Z.to_nat (b - m))%nat by lia.
  rewrite firstn_plus, skipn_skipn. do 3 f_equal. lia.
Qed.

Lemma len_slice (s : jsstring) (a b : Z) :
  0 <= a <= b -> b <= len s -> len (slice s a b) = b - a.
Proof.
  intros Ha Hb. rewrite slice_inside by lia.
  unfold len in *. rewrite length_firstn, length_skipn. lia.
Qed.

Lemma occursAt_slice (s q : jsstring) (p : Z) :
  q <> [] -> occursAt s q p -> slice s p (p + len q) = q.
Proof.
  intros Hq Hocc. destruct (occursAt_inside s q p Hq Hocc) as (Hp & Hend & _).
  destruct Hocc as [_ E]. pose proof (len_nonneg q).
  rewrite slice_inside by lia.
  replace (Z.to_nat (p + len q - p)) with (length q) by (unfold len; lia).
  exact E.
Qed.

Lemma len_ellipsisFor (cut : jsstring) :
  (cut = [] /\ len (ellipsisFor cut) = 0) \/ (cut <> [] /\ len (ellipsisFor cut) = 3).
Proof. destruct cut; [left | right]; split; (reflexivity || discriminate). Qed.

Lemma createPreview_length (line : jsstring) (index matchLength : Z) :
  1 <= len (createPreview line index matchLength) <= Z.max 1 matchLength + 86.
Proof.
  destruct line as [|c l] eqn:Eline.
  - change (len (createPreview [] index matchLength)) with 12. lia.
  - rewrite <- Eline.
    assert (Hne : line <> []) by (rewrite Eline; discriminate).
    destruct (createPreview_decompose line index matchLength Hne)
      as (cutLeft & window & cutRight & Hline & HL & HW & ->).
    apply (f_equal len) in Hline. rewrite !len_app in *.
    unfold windowStart, windowEnd in *.
    pose proof (len_nonneg cutLeft); pose proof (len_nonneg window);
      pose proof (len_nonneg cutRight).
    assert (0 < len line).
    { destruct (Z.eq_dec (len line) 0) as [E|E];
        [apply len_nil_iff in E; congruence | pose proof (len_nonneg line); lia]. }
    destruct (len_ellipsisFor cutLeft) as [[E1 EL] | [_ EL]],
             (len_ellipsisFor cutRight) as [[E2 ER] | [_ ER]];
      try apply len_nil_iff in E1; try apply len_nil_iff in E2; lia.
Qed.

Lemma createPreview_shows_span (line : jsstring) (index matchLength : Z) :
  0 <= index -> 1 <= matchLength -> index + matchLength <= len line ->
  exists before after,
    createPreview line index matchLength
    = before ++ slice line index (index + matchLength) ++ after
    /\ len before <= 43 /\ len after <= 43.
Proof.
  intros Hi Hl Hend.
  assert (Hne : line <> []) by (intros ->; change (len []) with 0 in Hend; lia).
  rewrite createPreview_nonempty by exact Hne. cbv zeta.
  set (a := windowStart index). set (b := windowEnd line index matchLength).
  assert (Ha : 0 <= a <= index /\ index - a <= 40) by (unfold a, windowStart; lia).
  assert (Hb : index + matchLength <= b <= len line /\ b - (index + matchLength) <= 40)
    by (unfold b, windowEnd; lia).
  rewrite (slice_split line a index b) by lia.
  rewrite (slice_split line index (index + matchLength) b) by lia.
  exists ((if 0 <? a then lit "..." else []) ++ slice line a index),
         (slice line (index + matchLength) b ++ (if b <? len line then lit "..." else [])).
  split; [now rewrite <- !app_assoc|].
  rewrite !len_app, !len_slice by lia.
  split; [destruct (0 <? a) | destruct (b <? len line)];
    try change (len (lit "...")) with 3; try change (len []) with 0; lia.
Qed.

Lemma createPreview_units (line : jsstring) (index matchLength : Z) (c : codeunit) :
  In c (createPreview line index matchLength) ->
  In c line \/ c = 46%N \/ (line = [] /\ In c (lit "(empty line)")).
Proof.
  destruct line as [|d l] eqn:Eline; [intros Hin; right; right; now split|].
  rewrite <- Eline.
  assert (Hne : line <> []) by (rewrite Eline; discriminate).
  destruct (createPreview_decompose line index matchLength Hne)
    as (cutLeft & window & cutRight & Hline & _ & _ & ->).
  assert (Hdots : forall cut, In c (ellipsisFor cut) -> c = 46%N).
  { intros [|? ?]; simpl; intuition congruence. }
  rewrite !in_app_iff. intros [Hin | [Hin | Hin]].
  - right; left; eapply Hdots; exact Hin.
  - left. rewrite Hline, !in_app_iff. tauto.
  - right; left; eapply Hdots; exact Hin.
Qed.

(** ** More on the scan in substring mode *)

Lemma GreedyScan_fits (s q : jsstring) (from : Z) (ps : list Z) :
  q <> [] -> 0 <= from ->
  GreedyScan s q from ps ->
  Z.of_nat (length ps) * len q <= Z.max 0 (len s - from).
Proof.
  intros Hq Hfrom G; induction G as [from Hno | from p ps Hp Hocc Hfirst G IH].
  - simpl; lia.
  - destruct (occursAt_inside s q p Hq Hocc) as (_ & Hend & _).
    pose proof (len_nonneg q). specialize (IH ltac:(lia)).
    cbn [length]. rewrite Nat2Z.inj_succ. lia.
Qed.

Lemma substring_scan_facts (H : Host) (query : jsstring) (options : SearchOptions)
    (line : jsstring) (occ first mlen : Z) :
  foldCase H options query <> [] ->
  substringScanLine H query (foldCase H options query) options line
  = Some (occ, first, mlen) ->
  occ <> 0 ->
  occursAt (foldCase H options line) (foldCase H options query) first
  /\ mlen = len query
  /\ occ * len (foldCase H options query) <= len (foldCase H options line)
  /\ (wholeWord options = true ->
      flankedByNonWord H line first (len (foldCase H options query))).
Proof.
  intros Hq E Hocc.
  destruct (substringScanLine_spec H query _ options line Hq) as (ps & G & E').
  rewrite E in E'; injection E' as -> -> ->.
  fold (foldCase H options line) in G.
  set (cs := counted H line (foldCase H options query) (wholeWord options) ps) in *.
  destruct cs as [|p cs'] eqn:Ecs; [contradiction|].
  assert (Hp : In p (counted H line (foldCase H options query) (wholeWord options) ps))
    by (fold cs; rewrite Ecs; now left).
  unfold counted in Hp; apply filter_In in Hp as [Hin Hok].
  destruct (GreedyScan_apart _ _ _ _ G) as [Hall _].
  rewrite Forall_forall in Hall. destruct (Hall p Hin) as [_ Hoccurs].
  split; [exact Hoccurs|]. split; [reflexivity|]. split.
  - pose proof (GreedyScan_fits _ _ 0 _ Hq (Z.le_refl 0) G) as Hfit.
    assert (length (p :: cs') <= length ps)%nat.
    { rewrite <- Ecs. unfold cs, counted. apply filter_length_le. }
    pose proof (len_nonneg (foldCase H options query)).
    assert (Z.of_nat (length (p :: cs')) * len (foldCase H options query)
            <= Z.of_nat (length ps) * len (foldCase H options query))
      by (apply Z.mul_le_mono_nonneg_r; lia).
    pose proof (len_nonneg (foldCase H options line)). lia.
  - intros Hww; rewrite Hww in Hok; simpl in Hok. now apply hasWordBoundaries_iff.
Qed.

(** ** Truncation stops the loop *)

Lemma forLines_truncated_more (scanLine : jsstring -> option (Z * Z * Z))
    (lines more : list jsstring) :
  forall (index : Z) (ms : list LineMatch) (res : SearchResult),
    forLines scanLine lines index ms = Some res ->
    isTruncated res = true ->
    forLines scanLine (lines ++ more) index ms = Some res.
Proof.
  induction lines as [|line rest IH]; intros index ms res E Htrunc;
    cbn [forLines app] in *.
  - injection E as <-. discriminate.
  - destruct (scanLine line) as [[[occ first] mlen]|]; [|discriminate].
    destruct (occ =? 0); [now apply IH|].
    destruct (MAX_MATCH_LINES <=? Z.of_nat (length ms)); [exact E | now apply IH].
Qed.

(** ** More on trim *)

Lemma trimStart_app_whitespace (a s : jsstring) :
  Forall (fun c => isWhiteSpace c = true) a -> trimStart (a ++ s) = trimStart s.
Proof.
  induction 1 as [|c a Hc Ha IH]; simpl; [reflexivity|]. now rewrite Hc.
Qed.

Lemma trimStart_app (s t : jsstring) :
  trimStart (s ++ t)
  = match trimStart s with [] => trimStart t | _ => trimStart s ++ t end.
Proof.
  induction s as [|c s IH]; simpl; [now destruct (trimStart t)|].
  destruct (isWhiteSpace c); [exact IH | reflexivity].
Qed.

Lemma trim_surrounded (a q b : jsstring) :
  Forall (fun c => isWhiteSpace c = true) a ->
  Forall (fun c => isWhiteSpace c = true) b ->
  trim (a ++ q ++ b) = trim q.
Proof.
  intros Ha Hb; unfold trim.
  rewrite (trimStart_app_whitespace a _ Ha), trimStart_app.
  destruct (trimStart q) as [|c x] eqn:E.
  - now rewrite (trimStart_whitespace b Hb).
  - rewrite rev_app_distr.
    now rewrite (trimStart_app_whitespace (rev b) _ (Forall_rev Hb)).
Qed.

(** ** Where a match comes from *)

Lemma search_match_origin (H : Host) (lines : list jsstring) (query : jsstring)
    (options : SearchOptions) (res : SearchResult) (m : LineMatch) :
  search H lines query options = Some res ->
  In m (matches res) ->
  trim query <> []
  /\ exists scan (k : nat) line occ first mlen,
       scanOf H (trim query) options = Some scan
       /\ forLines scan lines 0 [] = Some res
       /\ nth_error lines k = Some line
       /\ scan line = Some (occ, first, mlen)
       /\ occ <> 0
       /\ m = {| lineNumber := Z.of_nat k + 1; occurrences := occ;
                 preview := createPreview line first mlen |}.
Proof.
  intros E Hin.
  destruct (search_form H lines query options res E)
    as [[_ ->] | [(_ & _ & ->) | (Hq & scan & Hscan & Hrun)]];
    [contradiction | contradiction |].
  split; [exact Hq|].
  destruct (search_matches H lines query options res scan Hrun) as (Hms & _).
  rewrite Hms in Hin; apply In_firstn in Hin.
  apply matchedLines_In in Hin as (k & line & occ & first & mlen & Hk & Hs & Ho & ->).
  exists scan, k, line, occ, first, mlen.
  do 5 (split; [assumption|]). f_equal; lia.
Qed.

Lemma substring_match_facts (H : Host) (lines : list jsstring) (query : jsstring)
    (options : SearchOptions) (res : SearchResult) (m : LineMatch) :
  regex options = false ->
  foldCase H options (trim query) <> [] ->
  search H lines query options = Some res ->
  In m (matches res) ->
  exists (k : nat) line first,
    nth_error lines k = Some line
    /\ lineNumber m = Z.of_nat k + 1
    /\ preview m = createPreview line first (len (trim query))
    /\ occursAt (foldCase H options line) (foldCase H options (trim query)) first
    /\ occurrences m * len (foldCase H options (trim query))
       <= len (foldCase H options line)
    /\ (wholeWord options = true ->
        flankedByNonWord H line first (len (foldCase H options (trim query)))).
Proof.
  intros Hre Hfold E Hin.
  destruct (search_match_origin H lines query options res m E Hin)
    as (_ & scan & k & line & occ & first & mlen & Hscan & _ & Hk & Hs & Ho & ->).
  unfold scanOf in Hscan; rewrite Hre in Hscan; injection Hscan as <-.
  destruct (substring_scan_facts H _ options line occ first mlen Hfold Hs Ho)
    as (Hocc & -> & Hfit & Hflank).
  exists k, line, first.
  split; [exact Hk|]. split; [reflexivity|]. split; [reflexivity|].
  split; [exact Hocc|]. split; [exact Hfit | exact Hflank].
Qed.

Lemma search_returns (H : Host) (lines : list jsstring) (query : jsstring)
    (options : SearchOptions) :
  (regex options = true -> match_in_bounds H) ->
  exists res, search H lines query options = Some res.
Proof.
  intros Hbounds; unfold search, searchMarkdownLines.
  destruct (trim query) as [|c q]; [eauto|].
  destruct (regex options).
  - unfold searchByRegex.
    destruct (RegExp_new H _ _) as [r|]; [|eauto].
    apply forLines_total; intros line; apply regexScanLine_total; now apply Hbounds.
  - apply forLines_total; intros line; apply substringScanLine_total.
Qed.

(** ** Document keys *)

Lemma slice_prefix (s : jsstring) (k : Z) :
  0 <= k -> slice s 0 k = firstn (Z.to_nat k) s.
Proof.
  intros Hk; unfold slice. pose proof (len_nonneg s).
  destruct (Z.ltb_spec 0 0); [lia|]. destruct (Z.ltb_spec k 0); [lia|].
  rewrite (Z.min_l 0 (len s)) by lia. cbn [Z.to_nat skipn]. rewrite Z.sub_0_r.
  destruct (Z.le_gt_cases k (len s)).
  - now rewrite Z.min_l by lia.
  - rewrite Z.min_r by lia. rewrite !firstn_all2; [reflexivity | |]; unfold len in *; lia.
Qed.

Lemma wellDashed_dashRuns (s : jsstring) : wellDashed (dashRuns s).
Proof.
  induction s as [|c rest IH]; cbn [dashRuns]; [exact I|].
  destruct (isKeyUnit c) eqn:Ec.
  - split; [now left | exact IH].
  - destruct rest as [|d rest']; [repeat split; right; now split|].
    destruct (isKeyUnit d) eqn:Ed; [|exact IH].
    split; [|exact IH]. right; split; [reflexivity|].
    cbn [dashRuns]; rewrite Ed. exact Ed.
Qed.

Lemma wellDashed_prefix (s t : jsstring) : wellDashed (s ++ t) -> wellDashed s.
Proof.
  induction s as [|c s IH]; [intros _; exact I|].
  cbn [wellDashed app]. intros [Hc Hrest]. split; [|now apply IH].
  destruct Hc as [Hc | [Hc Hnext]]; [now left|].
  right; split; [exact Hc|]. destruct s; [exact I | exact Hnext].
Qed.

Lemma wellDashed_tail (c : codeunit) (s : jsstring) :
  wellDashed (c :: s) -> wellDashed s.
Proof. now intros [_ Hs]. Qed.

Lemma dash_not_key : isKeyUnit 45%N = false.
Proof. reflexivity. Qed.

(** What the first replacement leaves of a name: nothing or one dash when
    the name has no code unit of the class, and else a text that starts
    with the first such code unit, after a dash when the name does not
    start with it. *)
Lemma dashRuns_shape (s : jsstring) :
  match find isKeyUnit s with
  | None => dashRuns s = [] \/ dashRuns s = [45%N]
  | Some c => exists r, dashRuns s = c :: r \/ dashRuns s = 45%N :: c :: r
  end.
Proof.
  induction s as [|c rest IH]; cbn [find dashRuns]; [now left|].
  destruct (isKeyUnit c) eqn:Ec; [eexists; now left|].
  destruct rest as [|d rest']; [now right|].
  cbn [find] in *. destruct (isKeyUnit d) eqn:Ed.
  - exists (dashRuns rest'). right. cbn [dashRuns]. now rewrite Ed.
  - exact IH.
Qed.

Lemma stripEdgeDashes_wellDashed (s : jsstring) :
  wellDashed s -> wellDashed (stripEdgeDashes s).
Proof.
  intros Hs; unfold stripEdgeDashes.
  set (rest := match s with c :: rest => if (c =? 45)%N then rest else s | [] => [] end).
  assert (Hrest : wellDashed rest).
  { unfold rest; destruct s as [|c s']; [exact I|].
    destruct (c =? 45)%N; [now apply wellDashed_tail in Hs | exact Hs]. }
  destruct (rev rest) as [|c front] eqn:E; [exact Hrest|].
  destruct (c =? 45)%N; [|exact Hrest].
  apply (wellDashed_prefix (rev front) [c]).
  apply (f_equal (@rev _)) in E. rewrite rev_involutive in E. cbn [rev] in E.
  now rewrite <- E.
Qed.

Lemma stripEdgeDashes_head (c : codeunit) (r : jsstring) :
  isKeyUnit c = true ->
  (exists r', stripEdgeDashes (c :: r) = c :: r')
  /\ (exists r', stripEdgeDashes (45%N :: c :: r) = c :: r').
Proof.
  intros Hc.
  assert (Hne : (c =? 45)%N = false).
  { destruct (N.eqb_spec c 45) as [->|]; [discriminate | reflexivity]. }
  assert (Hcore : exists r', match rev (c :: r) with
                             | d :: front => if (d =? 45)%N then rev front else c :: r
                             | [] => c :: r
                             end = c :: r').
  { destruct (rev (c :: r)) as [|d front] eqn:E; [eauto|].
    destruct (N.eqb_spec d 45) as [->|]; [|eauto].
    apply (f_equal (@rev _)) in E. rewrite rev_involutive in E. cbn [rev] in E.
    destruct (rev front) as [|x xs]; cbn [app] in E.
    - injection E as -> _. discriminate.
    - injection E as -> _. eauto. }
  split; unfold stripEdgeDashes.
  - rewrite Hne. exact Hcore.
  - cbn [N.eqb Pos.eqb]. exact Hcore.
Qed.

(** ** Lower case in place *)

Lemma foldsInPlace_len (H : Host) (options : SearchOptions) (s : jsstring) :
  foldsInPlace H options s -> len (foldCase H options s) = len s.
Proof.
  unfold foldCase; intros [Hcs | [lower E]].
  - now rewrite Hcs.
  - destruct (caseSensitive options); [reflexivity|].
    rewrite E; unfold len; now rewrite length_map.
Qed.

Lemma Ref_foldsInPlace (options : SearchOptions) (s : jsstring) :
  foldsInPlace Ref.host options s.
Proof. right; exists Ref.lowerUnit; reflexivity. Qed.

(** ** The host with the dotted I *)

Lemma Dotted_asciiFaithful : asciiFaithful Dotted.host.
Proof.
  destruct Ref_asciiFaithful as (Hlow & HL & HN).
  assert (Hnot : forall c, (c < 128)%N -> (c =? 304)%N = false).
  { intros c Hc. apply N.eqb_neq. lia. }
  split; [|split]; simpl.
  - unfold Dotted.toLowerCase.
    induction 1 as [|c s Hc Hs IH]; cbn [flat_map map]; [reflexivity|].
    rewrite IH. unfold Dotted.lower. rewrite (Hnot c Hc). cbn [app]. f_equal.
    assert (E : isAscii [c]) by (constructor; [exact Hc | constructor]).
    apply Hlow in E. simpl in E. now injection E.
  - intros c Hc. unfold Dotted.isLetter.
    rewrite (Hnot c Hc), orb_false_r. exact (HL c Hc).
  - exact HN.
Qed.

(** * The model at work *)

Example scan_a_star :
  regexScanLine Ref.host (false, Ref.Seq (Ref.Star (Ref.Unit 97%N)) Ref.Empty)
    (lit "baaac")
  = Some (4, 0, 1).
Proof. vm_compute; reflexivity. Qed.

Example hello_case_insensitive :
  search Ref.host [lit "hello HELLO"] (lit "Hello") (opts false false false)
  = Some {| matches := [ {| lineNumber := 1; occurrences := 2;
                            preview := lit "hello HELLO" |} ];
            totalOccurrences := 2; totalMatchedLines := 1;
            isTruncated := false; errorMessage := None |}.
Proof. vm_compute; reflexivity. Qed.

Example regex_mode_501_lines :
  option_map (fun res => (length (matches res), totalOccurrences res,
                          totalMatchedLines res, isTruncated res, errorMessage res))
    (search Ref.host (todoLines 501) (lit "t.d*o") (opts false true true))
  = Some (500%nat, -1, -1, true, None).
Proof. vm_compute; reflexivity. Qed.

Example regex_mode_500_lines :
  option_map (fun res => (length (matches res), totalOccurrences res,
                          totalMatchedLines res, isTruncated res, errorMessage res))
    (search Ref.host (todoLines 500) (lit "t.d*o") (opts false true true))
  = Some (500%nat, 500, 500, false, None).
Proof. vm_compute; reflexivity. Qed.

Example preview_in_the_middle :
  createPreview (repeat 45%N 60 ++ lit "needle" ++ repeat 45%N 60) 60 6
  = lit "..." ++ repeat 45%N 40 ++ lit "needle" ++ repeat 45%N 40 ++ lit "...".
Proof. vm_compute; reflexivity. Qed.

(** * The claims *)

(** ** Snippets *)

(** C9. [createPreview] returns the placeholder text for the empty line.
    For any other line it returns the window that reaches 40 code units to
    the left and to the right of the match span, cut at the ends of the
    line: the line is [cutLeft ++ window ++ cutRight], the window starts at
    [windowStart] and ends at [windowEnd], and the preview is the window
    with an ellipsis in front exactly when [cutLeft] is not empty and an
    ellipsis behind exactly when [cutRight] is not empty.  A match at the
    start of the line gives no leading ellipsis; a match more than 40 code
    units from both ends of the line gives both. *)
Theorem createPreview_window (line : jsstring) (index matchLength : Z) :
  (line = [] -> createPreview line index matchLength = lit "(empty line)")
  /\ (line <> [] ->
      exists cutLeft window cutRight,
        line = cutLeft ++ window ++ cutRight
        /\ len cutLeft = Z.min (windowStart index) (len line)
        /\ len cutLeft + len window = windowEnd line index matchLength
        /\ createPreview line index matchLength
           = ellipsisFor cutLeft ++ window ++ ellipsisFor cutRight)
  /\ (line <> [] -> index = 0 ->
      exists window cutRight,
        line = window ++ cutRight
        /\ createPreview line index matchLength = window ++ ellipsisFor cutRight)
  /\ (40 < index -> 1 <= matchLength -> index + matchLength + 40 < len line ->
      exists cutLeft window cutRight,
        line = cutLeft ++ window ++ cutRight
        /\ len cutLeft = index - 40
        /\ len window = 40 + matchLength + 40
        /\ createPreview line index matchLength
           = lit "..." ++ window ++ lit "...").
Proof.
  split; [intros ->; reflexivity|].
  split; [apply createPreview_decompose|].
  split.
  - intros Hne ->.
    destruct (createPreview_decompose line 0 matchLength Hne)
      as (cutLeft & window & cutRight & Hline & HL & _ & E).
    assert (cutLeft = []).
    { apply len_nil_iff. pose proof (len_nonneg line). unfold windowStart in HL; lia. }
    subst cutLeft. exists window, cutRight; split; [exact Hline | exact E].
  - intros Hleft Hlen Hright.
    assert (Hne : line <> []).
    { intros ->. unfold len in Hright; simpl in Hright; lia. }
    destruct (createPreview_decompose line index matchLength Hne)
      as (cutLeft & window & cutRight & Hline & HL & HW & E).
    unfold windowStart in HL; unfold windowEnd in HW.
    exists cutLeft, window, cutRight.
    split; [exact Hline|]. split; [lia|]. split; [lia|].
    rewrite E. f_equal; [|f_equal].
    + destruct cutLeft; [change (len []) with 0 in HL; lia | reflexivity].
    + destruct cutRight; [|reflexivity].
      apply (f_equal len) in Hline. rewrite !len_app in Hline.
      change (len []) with 0 in Hline. lia.
Qed.

Lemma createPreview_window_witness :
  exists cutLeft window cutRight,
    lit "the quick brown fox" = cutLeft ++ window ++ cutRight
    /\ len cutLeft = Z.min (windowStart 4) (len (lit "the quick brown fox"))
    /\ len cutLeft + len window = windowEnd (lit "the quick brown fox") 4 5
    /\ createPreview (lit "the quick brown fox") 4 5
       = ellipsisFor cutLeft ++ window ++ ellipsisFor cutRight.
Proof.
  apply (createPreview_window (lit "the quick brown fox") 4 5).
  discriminate.
Defined.

(** ** The idle state *)

(** C7. When the query is empty after trimming, and so when it is empty or
    made of white space only, [search] returns the idle result, whatever
    the lines and the options. *)
Theorem empty_query_is_idle (H : Host) (lines : list jsstring)
    (query : jsstring) (options : SearchOptions) :
  (trim query = [] \/ Forall (fun c => isWhiteSpace c = true) query) ->
  search H lines query options
  = Some {| matches := []; totalOccurrences := 0; totalMatchedLines := 0;
            isTruncated := false; errorMessage := None |}.
Proof.
  intros Hq.
  assert (E : trim query = []) by (destruct Hq; [assumption | now apply trim_whitespace]).
  unfold search; rewrite E; reflexivity.
Qed.

Lemma empty_query_is_idle_witness :
  search Ref.host [lit "some text"; lit "more text"] (lit "   ") (opts false true true)
  = Some {| matches := []; totalOccurrences := 0; totalMatchedLines := 0;
            isTruncated := false; errorMessage := None |}.
Proof.
  apply (empty_query_is_idle Ref.host).
  left; reflexivity.
Defined.

(** ** Patterns that do not compile *)

(** C3, at an input where the code departs from it.  The pattern [)(] does
    not compile: its first parenthesis closes a group that was never
    opened.  Without whole words [search] compiles the query as it is and
    returns the result with the fixed message.  With whole words the code
    compiles [\b(?:)()\b] instead, in which the query closes the group of
    the wrapper and opens one that the wrapper closes.  That source is well
    formed, so no error is reported, and the line [ab cd] is listed for the
    four empty matches at its word boundaries. *)
Theorem whole_word_hides_invalid_pattern :
  let lines := [lit "ab cd"] in
  RegExp_new Ref.host (lit ")(") (regexFlags (opts true true true)) = None
  /\ regexSource (lit ")(") (opts true true true) = lit "\b(?:)()\b"
  /\ search Ref.host lines (lit ")(") (opts true false true)
     = Some {| matches := []; totalOccurrences := 0; totalMatchedLines := 0;
               isTruncated := false;
               errorMessage := Some (lit "Invalid regular expression.") |}
  /\ search Ref.host lines (lit ")(") (opts true true true)
     = Some {| matches := [ {| lineNumber := 1; occurrences := 4;
                               preview := lit "ab cd" |} ];
               totalOccurrences := 4; totalMatchedLines := 1;
               isTruncated := false; errorMessage := None |}.
Proof.
  split; [|split; [|split]]; vm_compute; reflexivity.
Qed.

(** ** Termination of the scan in regex mode *)

(** C2. With a runtime whose matches lie in the line at or after the index
    the search starts from, the scan of a line in regex mode ends, for every
    compiled pattern and every line: any fuel above the length of the line
    is enough, and the loop returns the number of matches of the scan
    [RegexScan], whose cursor moves one position past an empty match.  That
    number is between [0] and [len line + 1], and the matches found start
    at least [max(1, length)] apart.  In particular, when [a*] compiles, the
    search for [a*] in a line that is not empty returns a result without
    error whose count of occurrences is between [0] and [len line + 1]. *)
Theorem regex_scan_terminates (H : Host) :
  match_in_bounds H ->
  forall (r : regexp H) (line : jsstring),
    (exists ms,
       RegexScan H r line 0 ms
       /\ (forall fuel, (length line < fuel)%nat ->
           (let '(result, lastIndex) := exec H r line 0 in
            regexWhile H fuel r line 0 (-1) 0 result lastIndex)
           = Some (Z.of_nat (length ms),
                   match ms with [] => -1 | (i, _) :: _ => i end,
                   match ms with [] => 0 | (_, t) :: _ => Z.max 1 (len t) end))
       /\ 0 <= Z.of_nat (length ms) <= len line + 1
       /\ (forall i j m m', (i < j)%nat ->
             nth_error ms i = Some m -> nth_error ms j = Some m' ->
             fst m + Z.max 1 (len (snd m)) <= fst m'))
    /\ (forall options,
          regex options = true ->
          RegExp_new H (regexSource (lit "a*") options) (regexFlags options) = Some r ->
          line <> [] ->
          exists res,
            search H [line] (lit "a*") options = Some res
            /\ errorMessage res = None
            /\ isTruncated res = false
            /\ 0 <= totalOccurrences res <= len line + 1).
Proof.
  intros bounds r line.
  destruct (regexScanLine_spec H bounds r line) as (ms & G & E).
  destruct (RegexScan_bounded H bounds r line 0 ms ltac:(lia) G) as (Hlen & _ & Hgap).
  pose proof (len_nonneg line) as Hline.
  split.
  - exists ms. split; [exact G|]. split; [|split; [lia | exact Hgap]].
    intros fuel Hfuel.
    destruct (regexWhile_spec H bounds r line fuel 0 0 (-1) 0
                ltac:(lia) ltac:(unfold len; lia)) as (ms' & G' & E').
    assert (ms' = ms) by (eapply RegexScan_functional; eassumption); subst ms'.
    exact E'.
  - intros options Hre Hnew _.
    unfold search. change (trim (lit "a*")) with (lit "a*").
    unfold searchMarkdownLines; cbn [lit]; rewrite Hre.
    unfold searchByRegex. change (N_of_ascii "a" :: N_of_ascii "*" :: []) with (lit "a*").
    rewrite Hnew, (forLines_one_line _ _ _ _ _ E).
    destruct (Z.of_nat (length ms) =? 0); eexists; (split; [reflexivity|]);
      cbn; repeat split; lia.
Qed.

Lemma regex_scan_terminates_witness :
  exists res,
    search Ref.host [lit "baaac"] (lit "a*") (opts true false true) = Some res
    /\ errorMessage res = None
    /\ isTruncated res = false
    /\ 0 <= totalOccurrences res <= len (lit "baaac") + 1.
Proof.
  apply (regex_scan_terminates Ref.host Ref_match_in_bounds
           (false, Ref.Seq (Ref.Star (Ref.Unit 97%N)) Ref.Empty) (lit "baaac")).
  - reflexivity.
  - reflexivity.
  - discriminate.
Defined.

(** ** Whole words in regex mode *)

(** C5, at an input where the code departs from it.  On the line [café]
    (the last code unit, 233, is a Unicode letter) the query [caf] with
    whole words asked for has one occurrence in regex mode: [\b] holds
    between [f] and [é], as [\b] knows the word characters of ASCII only.
    The same search in substring mode, which asks the Unicode tables, has
    none. *)
Theorem regex_whole_word_is_ascii_only :
  let line := lit "caf" ++ [233%N] in
  wordUnit Ref.host (unitAt line 3)
  /\ search Ref.host [line] (lit "caf") (opts true true true)
     = Some {| matches := [ {| lineNumber := 1; occurrences := 1; preview := line |} ];
               totalOccurrences := 1; totalMatchedLines := 1;
               isTruncated := false; errorMessage := None |}
  /\ search Ref.host [line] (lit "caf") (opts true true false)
     = Some {| matches := []; totalOccurrences := 0; totalMatchedLines := 0;
               isTruncated := false; errorMessage := None |}.
Proof.
  split; [left; reflexivity|].
  split; vm_compute; reflexivity.
Qed.

(** ** Substring mode *)

(** C6. In substring mode, for a query that is not empty (nor is it once
    put to lower case), the line, put to lower case with the query unless
    the search is case sensitive, is scanned from the left: each candidate
    is the leftmost occurrence at or after the position where the scan
    resumes, and after a candidate at [p] the scan resumes at
    [p + max(1, len query)], so that candidates do not overlap.  This scan
    has exactly one list of candidates, and the number of occurrences
    reported for the line is the number of candidates, those at word
    boundaries when whole words are asked for. *)
Theorem substring_count_is_scan_count (H : Host) (line query : jsstring)
    (options : SearchOptions) :
  let s := foldCase H options line in
  let q := foldCase H options query in
  query <> [] -> q <> [] ->
  exists candidates,
    GreedyScan s q 0 candidates
    /\ (forall ps, GreedyScan s q 0 ps -> ps = candidates)
    /\ Forall (fun p => occursAt s q p) candidates
    /\ (forall i j p p', (i < j)%nat -> nth_error candidates i = Some p ->
          nth_error candidates j = Some p' -> p + Z.max 1 (len q) <= p')
    /\ (wholeWord options = false ->
        substringScanLine H query q options line
        = Some (Z.of_nat (length candidates), hd (-1) candidates, len query)
        /\ searchBySubstring H [line] query options
           = Some (oneLineResult line query candidates))
    /\ (wholeWord options = true ->
        forall flanked : Z -> bool,
          (forall p, flanked p = true <-> flankedByNonWord H line p (len q)) ->
          substringScanLine H query q options line
          = Some (Z.of_nat (length (filter flanked candidates)),
                  hd (-1) (filter flanked candidates), len query)
          /\ searchBySubstring H [line] query options
             = Some (oneLineResult line query (filter flanked candidates))).
Proof.
  intros s q _ Hq.
  destruct (searchBySubstring_one_line H line query options Hq)
    as (candidates & G & Escan & Esearch).
  fold s q in G, Escan, Esearch.
  destruct (GreedyScan_apart s q 0 candidates G) as [Hall Hgap].
  exists candidates.
  split; [exact G|].
  split; [intros ps G'; eapply GreedyScan_functional; eassumption|].
  split; [eapply Forall_impl; [|exact Hall]; simpl; tauto|].
  split; [exact Hgap|].
  split.
  - intros Hww; rewrite Hww, counted_all in Escan, Esearch. now split.
  - intros Hww flanked Hflanked.
    rewrite Hww, (counted_flanked H line q candidates flanked Hflanked)
      in Escan, Esearch.
    now split.
Qed.

Lemma substring_count_is_scan_count_witness :
  exists candidates,
    GreedyScan (lit "banana bandana") (lit "ana") 0 candidates
    /\ searchBySubstring Ref.host [lit "Banana bandana"] (lit "ANA")
         (opts false false false)
       = Some (oneLineResult (lit "Banana bandana") (lit "ANA") candidates).
Proof.
  destruct (substring_count_is_scan_count Ref.host (lit "Banana bandana") (lit "ANA")
              (opts false false false))
    as (candidates & G & _ & _ & _ & Hall & _).
  - discriminate.
  - discriminate.
  - exists candidates; split; [exact G | apply Hall; reflexivity].
Defined.

(** C4, at two inputs where the code departs from it.

    In the line [İstanbul cat] (the first code unit is 304, U+0130) the
    word [cat] stands alone: it is at index 9, after a space and at the end
    of the line.  The case sensitive search counts it.  The search that is
    not case sensitive looks for candidates in the lower-cased line, where
    U+0130 has become two code units and [cat] is at index 10, and reads the
    neighbours in the line itself at that index: the code unit before is
    the [c] of [cat], so the occurrence does not count and the line is not
    reported, though it is without whole words.

    In the second line [cat] follows U+1D49C (code point 119964), a letter,
    written as the surrogate pair 55349, 56476.  The code reads the one code
    unit before the candidate, the second half of the pair, which on its own
    is no letter, and counts the occurrence. *)
Theorem whole_word_reads_wrong_neighbours :
  let line := 304%N :: lit "stanbul cat" in
  let glued := [55349%N; 56476%N] ++ lit "cat" in
  (occursAt line (lit "cat") 9
   /\ flankedByNonWord Dotted.host line 9 (len (lit "cat")))
  /\ search Dotted.host [line] (lit "cat") (opts true true false)
     = Some {| matches := [ {| lineNumber := 1; occurrences := 1; preview := line |} ];
               totalOccurrences := 1; totalMatchedLines := 1;
               isTruncated := false; errorMessage := None |}
  /\ (indexOf (toLowerCase Dotted.host line) (lit "cat") 0 = 10
      /\ hasWordBoundaries Dotted.host line 10 (len (lit "cat")) = false)
  /\ search Dotted.host [line] (lit "cat") (opts false true false)
     = Some {| matches := []; totalOccurrences := 0; totalMatchedLines := 0;
               isTruncated := false; errorMessage := None |}
  /\ search Dotted.host [line] (lit "cat") (opts false false false)
     = Some {| matches := [ {| lineNumber := 1; occurrences := 1; preview := line |} ];
               totalOccurrences := 1; totalMatchedLines := 1;
               isTruncated := false; errorMessage := None |}
  /\ (codePointOf 55349%N 56476%N = 119964%N
      /\ unitAt glued 1 = Some 56476%N
      /\ ~ wordUnit Dotted.host (Some 56476%N))
  /\ search Dotted.host [glued] (lit "cat") (opts true true false)
     = Some {| matches := [ {| lineNumber := 1; occurrences := 1; preview := glued |} ];
               totalOccurrences := 1; totalMatchedLines := 1;
               isTruncated := false; errorMessage := None |}.
Proof.
  assert (Hno : forall u, (forall c, u = Some c ->
                             wordClass Dotted.host c = false) ->
                          ~ wordUnit Dotted.host u).
  { intros [c|] Hu Hw; [|exact Hw].
    specialize (Hu c eq_refl); unfold wordClass in Hu.
    apply orb_false_elim in Hu as [Hu H95]. apply orb_false_elim in Hu as [HL HN].
    destruct Hw as [Hw|[Hw|Hw]]; [congruence | congruence |].
    subst c; discriminate. }
  split; [split; [split; [lia | reflexivity] | split; apply Hno]|].
  - intros c E; vm_compute in E; injection E as <-; reflexivity.
  - intros c E; vm_compute in E; discriminate.
  - split; [vm_compute; reflexivity|].
    split; [split; vm_compute; reflexivity|].
    split; [vm_compute; reflexivity|].
    split; [vm_compute; reflexivity|].
    split; [|vm_compute; reflexivity].
    split; [reflexivity|]. split; [reflexivity|].
    apply Hno. intros c E; injection E as <-; reflexivity.
Qed.

(** ** The cap on the matched lines *)

(** C1. In either mode (for a query that is not empty after trimming and,
    in regex mode, compiles; the runtime is assumed to return matches that
    lie in the line), let [all] be the entries of the lines that have an
    occurrence, in the order of the lines.  Their line numbers increase.
    When [all] has more than 500 entries, [search] returns the first 500 of
    them, that is the matches collected before the line that would have
    been the 501st, with [isTruncated = true] and both totals [-1]; when it
    has at most 500, nothing is cut.  In particular a document of 501 lines
    that all have an occurrence of the query gives a truncated result with
    exactly 500 matches, those of the lines 1 to 500, and totals [-1]. *)
Theorem truncation_at_cap (H : Host) (lines : list jsstring) (query : jsstring)
    (options : SearchOptions) (scan : jsstring -> option (Z * Z * Z)) :
  match_in_bounds H ->
  trim query <> [] ->
  scanOf H (trim query) options = Some scan ->
  let all := matchedLines scan lines 0 in
  StronglySorted (fun m m' => lineNumber m < lineNumber m') all
  /\ ((500 < length all)%nat ->
      search H lines query options
      = Some {| matches := firstn 500 all;
                totalOccurrences := -1; totalMatchedLines := -1;
                isTruncated := true; errorMessage := None |})
  /\ ((length all <= 500)%nat ->
      exists res,
        search H lines query options = Some res
        /\ matches res = all /\ isTruncated res = false)
  /\ (length lines = 501%nat ->
      Forall (hasOccurrence H (trim query) options) lines ->
      exists ms,
        search H lines query options
        = Some {| matches := ms;
                  totalOccurrences := -1; totalMatchedLines := -1;
                  isTruncated := true; errorMessage := None |}
        /\ length ms = 500%nat
        /\ map lineNumber ms = map Z.of_nat (seq 1 500)).
Proof.
  intros bounds Hq Hscan all.
  assert (Hrun : search H lines query options
                 = Some (if Z.of_nat (length all) <=? MAX_MATCH_LINES
                         then completeResult all
                         else truncatedResult (firstn 500 all))).
  { rewrite (search_scanOf H lines query options scan Hq Hscan).
    rewrite forLines_spec; [reflexivity | simpl; unfold MAX_MATCH_LINES; lia|].
    apply Forall_forall; intros line _. eapply scanOf_total; eassumption. }
  unfold MAX_MATCH_LINES in Hrun.
  split; [apply matchedLines_ascending|].
  split; [|split].
  - intros Hmany. rewrite Hrun.
    destruct (Z.leb_spec (Z.of_nat (length all)) 500); [lia | reflexivity].
  - intros Hfew. rewrite Hrun.
    destruct (Z.leb_spec (Z.of_nat (length all)) 500); [|lia].
    eexists; split; [reflexivity|]. split; reflexivity.
  - intros Hlen Hall.
    assert (Hall' : Forall (fun line => exists occ first mlen,
                               scan line = Some (occ, first, mlen) /\ occ <> 0) lines).
    { eapply Forall_impl; [|exact Hall]. simpl; intros line.
      eapply hasOccurrence_scanOf; eassumption. }
    assert (Hlen' : length all = 501%nat).
    { unfold all. now rewrite matchedLines_length. }
    exists (firstn 500 all). split; [|split].
    + rewrite Hrun.
      destruct (Z.leb_spec (Z.of_nat (length all)) 500); [lia | reflexivity].
    + rewrite length_firstn; lia.
    + rewrite <- firstn_map. unfold all.
      rewrite (matchedLines_numbers scan lines Hall' 0), Hlen.
      vm_compute; reflexivity.
Qed.

Lemma truncation_at_cap_witness :
  exists ms,
    search Ref.host (todoLines 501) (lit " todo ") (opts true false false)
    = Some {| matches := ms;
              totalOccurrences := -1; totalMatchedLines := -1;
              isTruncated := true; errorMessage := None |}
    /\ length ms = 500%nat
    /\ map lineNumber ms = map Z.of_nat (seq 1 500).
Proof.
  apply (truncation_at_cap Ref.host (todoLines 501) (lit " todo ")
           (opts true false false)
           (substringScanLine Ref.host (lit "todo") (lit "todo") (opts true false false))).
  - exact Ref_match_in_bounds.
  - discriminate.
  - reflexivity.
  - reflexivity.
  - exact (todoLines_hasOccurrence 501).
Defined.

(** ** Totals *)

(** C8. A result of [search] that is not truncated and carries no error
    message has as [totalOccurrences] the sum of the [occurrences] of its
    matches and as [totalMatchedLines] their number, in both modes. *)
Theorem totals_when_not_truncated (H : Host) (lines : list jsstring)
    (query : jsstring) (options : SearchOptions) (res : SearchResult) :
  search H lines query options = Some res ->
  isTruncated res = false ->
  errorMessage res = None ->
  totalOccurrences res = sumOccurrences (matches res)
  /\ totalMatchedLines res = Z.of_nat (length (matches res)).
Proof.
  intros E Htrunc Herr.
  destruct (search_cases H lines query options res E)
    as [-> | [-> | [[Eres _] | Eres]]].
  - split; reflexivity.
  - discriminate.
  - rewrite Eres in Htrunc; discriminate.
  - destruct (completeResult_totals (matches res)) as [Hocc Hlines].
    split; [rewrite Eres at 1; exact Hocc | rewrite Eres at 1; exact Hlines].
Qed.

Lemma totals_when_not_truncated_witness :
  let res :=
    {| matches := [ {| lineNumber := 1; occurrences := 2; preview := lit "a cat, a Cat" |};
                    {| lineNumber := 3; occurrences := 1; preview := lit "cat" |} ];
       totalOccurrences := 3; totalMatchedLines := 2;
       isTruncated := false; errorMessage := None |} in
  totalOccurrences res = sumOccurrences (matches res)
  /\ totalMatchedLines res = Z.of_nat (length (matches res)).
Proof.
  apply (totals_when_not_truncated Ref.host
           [lit "a cat, a Cat"; lit "a dog"; lit "cat"] (lit "c.t")
           (opts false false true)).
  - vm_compute; reflexivity.
  - reflexivity.
  - reflexivity.
Defined.

(** ** Truncation and error exclude each other *)

(** C10. Of every result of [search]: when [isTruncated] is true there are
    exactly 500 matches and no error message; when there is an error message
    [isTruncated] is false. *)
Theorem truncated_or_error (H : Host) (lines : list jsstring)
    (query : jsstring) (options : SearchOptions) (res : SearchResult) :
  search H lines query options = Some res ->
  (isTruncated res = true ->
   length (matches res) = 500%nat /\ errorMessage res = None)
  /\ (errorMessage res <> None -> isTruncated res = false).
Proof.
  intros E.
  destruct (search_cases H lines query options res E)
    as [-> | [-> | [[Eres Hlen] | Eres]]].
  - split; [discriminate | reflexivity].
  - split; [discriminate | reflexivity].
  - split; [intros _; split; [exact Hlen | rewrite Eres; reflexivity]|].
    rewrite Eres; simpl; congruence.
  - split; [rewrite Eres; discriminate | rewrite Eres; simpl; congruence].
Qed.

Lemma truncated_or_error_witness :
  let res :=
    {| matches := []; totalOccurrences := 0; totalMatchedLines := 0;
       isTruncated := false;
       errorMessage := Some (lit "Invalid regular expression.") |} in
  (isTruncated res = true ->
   length (matches res) = 500%nat /\ errorMessage res = None)
  /\ (errorMessage res <> None -> isTruncated res = false).
Proof.
  apply (truncated_or_error Ref.host [lit "x"] (lit "a)") (opts true true true)).
  vm_compute; reflexivity.
Defined.

(** * Further properties *)

(** ** The lines of a document *)

(** X1. A text always has at least one line; it has one line more than it
    has line feeds; no line contains a line feed. *)
Theorem splitLines_shape (markdown : jsstring) :
  splitLines markdown <> []
  /\ length (splitLines markdown) = S (count_occ N.eq_dec markdown 10%N)
  /\ Forall (fun line => ~ In 10%N line) (splitLines markdown).
Proof.
  split; [apply splitLines_nonempty|].
  split; [apply splitLines_count | apply splitLines_no_line_feed].
Qed.

(** X2. Putting the lines together with line feeds gives the text back,
    but for the carriage returns of the pairs carriage return, line feed,
    which are lost; a text without such a pair is given back as it is. *)
Theorem splitLines_then_join (markdown : jsstring) :
  joinLines (splitLines markdown) = crlfToLf markdown
  /\ ((forall front back, markdown <> front ++ 13%N :: 10%N :: back) ->
      joinLines (splitLines markdown) = markdown).
Proof.
  split; [apply joinLines_splitLines|].
  intros Hpair. rewrite joinLines_splitLines. now apply crlfToLf_without_pair.
Qed.

Lemma splitLines_then_join_witness :
  joinLines (splitLines (lit "# Title" ++ [10%N; 10%N] ++ lit "text" ++ [13%N]))
  = lit "# Title" ++ [10%N; 10%N] ++ lit "text" ++ [13%N].
Proof.
  apply (splitLines_then_join (lit "# Title" ++ [10%N; 10%N] ++ lit "text" ++ [13%N])).
  intros front back E.
  do 14 (destruct front as [|? front]; [discriminate|]; injection E as _ E).
  destruct front; discriminate.
Defined.

(** X3. Lines without line feed, none but the last ending in a carriage
    return, are the lines of the text made of them with line feeds between. *)
Theorem join_then_splitLines (lines : list jsstring) (last : jsstring) :
  Forall (fun line => ~ In 10%N line /\ ~ endsWithCR line) lines ->
  ~ In 10%N last ->
  splitLines (joinLines (lines ++ [last])) = lines ++ [last].
Proof. apply splitLines_joinLines. Qed.

Lemma join_then_splitLines_witness :
  splitLines (joinLines ([lit "alpha"; []; lit "beta "] ++ [lit "gamma" ++ [13%N]]))
  = [lit "alpha"; []; lit "beta "] ++ [lit "gamma" ++ [13%N]].
Proof.
  apply (join_then_splitLines [lit "alpha"; []; lit "beta "] (lit "gamma" ++ [13%N])).
  - repeat constructor;
      try (intros Hin; simpl in Hin; repeat destruct Hin as [Hin|Hin]; discriminate || contradiction);
      intros [front E]; apply (f_equal (@rev _)) in E; rewrite rev_app_distr in E;
      discriminate.
  - intros Hin; simpl in Hin; repeat destruct Hin as [Hin|Hin]; discriminate || contradiction.
Defined.

(** ** Pages *)

(** X4. The pages of the buttons split the matches: with more than 100
    matches the pages [1] to [pageCount], in this order, are the matches;
    with at most 100 there is no button and page [1] shows them all.  No
    page shows more than 100 matches, and a page above [pageCount] shows
    none. *)
Theorem pages_partition (ms : list LineMatch) :
  (100 < length ms ->
   concat (map (visibleMatches ms) (pageButtons ms)) = ms)%nat
  /\ (length ms <= 100 ->
      pageButtons ms = [] /\ visibleMatches ms 1 = ms)%nat
  /\ (forall page, length (visibleMatches ms page) <= 100)%nat
  /\ (forall page, 1 <= page <= pageCount ms -> visibleMatches ms page <> [])
  /\ (forall page, pageCount ms < page -> visibleMatches ms page = []).
Proof.
  pose proof (pageCount_spec ms) as Hcount; cbv zeta in Hcount.
  split; [|split; [|split; [|split]]].
  - intros Hmany. unfold pageButtons, MATCHES_PER_PAGE.
    destruct (Z.ltb_spec 100 (Z.of_nat (length ms))); [|lia].
    rewrite map_map.
    erewrite map_ext; [apply chunks_concat; lia|].
    intros i; cbv beta. rewrite visibleMatches_page by lia.
    do 2 f_equal; lia.
  - intros Hfew. unfold pageButtons, MATCHES_PER_PAGE.
    destruct (Z.ltb_spec 100 (Z.of_nat (length ms))); [lia|].
    split; [reflexivity|].
    rewrite visibleMatches_page by lia. cbn [Z.to_nat Pos.to_nat Pos.iter_op Nat.sub Nat.mul skipn].
    apply firstn_all2; lia.
  - apply visibleMatches_length.
  - intros page Hpage. rewrite visibleMatches_page by lia.
    intros E. apply (f_equal (@length _)) in E.
    rewrite length_firstn, length_skipn in E. cbn [length] in E. lia.
  - intros page Hpage.
    pose proof (Zle_0_nat (length ms)).
    assert (0 <= pageCount ms)
      by (unfold pageCount, MATCHES_PER_PAGE; apply Z.div_pos; lia).
    rewrite visibleMatches_page by lia.
    rewrite skipn_all2 by lia. apply firstn_nil.
Qed.

Lemma pages_partition_witness :
  let ms := repeat {| lineNumber := 1; occurrences := 1; preview := lit "x" |} 250 in
  concat (map (visibleMatches ms) (pageButtons ms)) = ms.
Proof.
  apply (pages_partition
           (repeat {| lineNumber := 1; occurrences := 1; preview := lit "x" |} 250)).
  rewrite repeat_length. lia.
Defined.

(** ** The matches of a result *)

(** X5. In every result of [search] there are at most 500 matches, so at
    most five page buttons; the line numbers of the matches increase; each
    match has the number of a line of the document, counts at least one
    occurrence and carries a preview of that line. *)
Theorem search_matches_wellformed (H : Host) (lines : list jsstring)
    (query : jsstring) (options : SearchOptions) (res : SearchResult) :
  search H lines query options = Some res ->
  (length (matches res) <= 500)%nat
  /\ (length (pageButtons (matches res)) <= 5)%nat
  /\ StronglySorted (fun m m' => lineNumber m < lineNumber m') (matches res)
  /\ Forall (fun m =>
               1 <= lineNumber m <= Z.of_nat (length lines)
               /\ 1 <= occurrences m
               /\ exists line first mlen,
                    nth_error lines (Z.to_nat (lineNumber m - 1)) = Some line
                    /\ preview m = createPreview line first mlen)
            (matches res).
Proof.
  intros E.
  assert (Hempty : matches res = [] ->
            (length (matches res) <= 500)%nat
            /\ (length (pageButtons (matches res)) <= 5)%nat
            /\ StronglySorted (fun m m' => lineNumber m < lineNumber m') (matches res)
            /\ Forall (fun m =>
                         1 <= lineNumber m <= Z.of_nat (length lines)
                         /\ 1 <= occurrences m
                         /\ exists line first mlen,
                              nth_error lines (Z.to_nat (lineNumber m - 1)) = Some line
                              /\ preview m = createPreview line first mlen)
                      (matches res)).
  { intros ->. repeat split; try constructor; simpl; lia. }
  destruct (search_form H lines query options res E)
    as [[_ ->] | [(_ & _ & ->) | (_ & scan & Hscan & Hrun)]];
    [now apply Hempty | now apply Hempty |].
  destruct (search_matches H lines query options res scan Hrun) as (Hms & _).
  assert (Hlen : (length (matches res) <= 500)%nat)
    by (rewrite Hms, length_firstn; lia).
  split; [exact Hlen|]. split; [|split].
  - unfold pageButtons. destruct (MATCHES_PER_PAGE <? _); [|simpl; lia].
    rewrite length_map, length_seq.
    pose proof (pageCount_spec (matches res)) as Hcount; cbv zeta in Hcount. lia.
  - rewrite Hms. apply StronglySorted_firstn, matchedLines_ascending.
  - apply Forall_forall; intros m Hin.
    rewrite Hms in Hin; apply In_firstn in Hin.
    apply matchedLines_In in Hin as (k & line & occ & first & mlen & Hk & Hs & Ho & ->).
    pose proof (scanOf_nonneg H _ options scan line occ first mlen Hscan Hs).
    assert (k < length lines)%nat by (apply nth_error_Some; rewrite Hk; discriminate).
    cbn [lineNumber occurrences preview].
    split; [lia|]. split; [lia|].
    exists line, first, mlen. split; [|reflexivity].
    replace (Z.to_nat (0 + Z.of_nat k + 1 - 1)) with k by lia. exact Hk.
Qed.

Lemma search_matches_wellformed_witness :
  let res :=
    {| matches := [ {| lineNumber := 2; occurrences := 2; preview := lit "to do or not to do" |} ];
       totalOccurrences := 2; totalMatchedLines := 1;
       isTruncated := false; errorMessage := None |} in
  (length (matches res) <= 500)%nat
  /\ (length (pageButtons (matches res)) <= 5)%nat
  /\ StronglySorted (fun m m' => lineNumber m < lineNumber m') (matches res)
  /\ Forall (fun m =>
               1 <= lineNumber m <= Z.of_nat (length [lit "first"; lit "to do or not to do"])
               /\ 1 <= occurrences m
               /\ exists line first mlen,
                    nth_error [lit "first"; lit "to do or not to do"]
                      (Z.to_nat (lineNumber m - 1)) = Some line
                    /\ preview m = createPreview line first mlen)
            (matches res).
Proof.
  apply (search_matches_wellformed Ref.host [lit "first"; lit "to do or not to do"]
           (lit "to d.") (opts true false true)).
  vm_compute; reflexivity.
Defined.

(** X6. A line is reported only if it has an occurrence of the query under
    the rule of the mode, and, when the result is not truncated, every line
    that has one is reported.  The rule of regex mode: the source that the
    code compiles (the query, or [\b(?:query)\b] for whole words) matches
    somewhere in the line.  The rule of substring mode: the scan from the
    left of the lower-cased line (of the line itself in a case sensitive
    search) for the query has a candidate and, for whole words, a candidate
    whose neighbouring code units in the line are no word characters.  For
    whole words in substring mode the lines are assumed to keep every code
    unit in its place when they are put to lower case, so that the position
    of a candidate is the position of the same text in the line.  (In regex
    mode the matches of the runtime are assumed to lie in the line; in
    substring mode the query is assumed not to become empty when put to
    lower case.) *)
Theorem reported_iff_occurrence (H : Host) (lines : list jsstring)
    (query : jsstring) (options : SearchOptions) (res : SearchResult) :
  (regex options = true -> match_in_bounds H) ->
  (regex options = false -> foldCase H options (trim query) <> []) ->
  (regex options = false -> wholeWord options = true ->
   Forall (foldsInPlace H options) lines) ->
  trim query <> [] ->
  search H lines query options = Some res ->
  (forall m, In m (matches res) ->
     exists (k : nat) line,
       nth_error lines k = Some line
       /\ lineNumber m = Z.of_nat k + 1
       /\ hasOccurrence H (trim query) options line)
  /\ (isTruncated res = false ->
      forall (k : nat) line,
        nth_error lines k = Some line ->
        hasOccurrence H (trim query) options line ->
        exists m, In m (matches res) /\ lineNumber m = Z.of_nat k + 1).
Proof.
  intros Hbounds Hfold _ Hq E; split.
  - intros m. now apply reported_sound.
  - intros Htrunc k line. now apply reported_complete.
Qed.

Lemma reported_iff_occurrence_witness :
  let res :=
    {| matches := [ {| lineNumber := 2; occurrences := 2; preview := lit "A cat, a CAT." |} ];
       totalOccurrences := 2; totalMatchedLines := 1;
       isTruncated := false; errorMessage := None |} in
  (forall m, In m (matches res) ->
     exists (k : nat) line,
       nth_error [lit "concatenate"; lit "A cat, a CAT."] k = Some line
       /\ lineNumber m = Z.of_nat k + 1
       /\ hasOccurrence Ref.host (trim (lit "cat")) (opts false true false) line)
  /\ (isTruncated res = false ->
      forall (k : nat) line,
        nth_error [lit "concatenate"; lit "A cat, a CAT."] k = Some line ->
        hasOccurrence Ref.host (trim (lit "cat")) (opts false true false) line ->
        exists m, In m (matches res) /\ lineNumber m = Z.of_nat k + 1).
Proof.
  apply (reported_iff_occurrence Ref.host [lit "concatenate"; lit "A cat, a CAT."]
           (lit "cat") (opts false true false)).
  - discriminate.
  - discriminate.
  - intros _ _. apply Forall_forall; intros line _. apply Ref_foldsInPlace.
  - discriminate.
  - vm_compute; reflexivity.
Defined.

(** X7. In substring mode without whole words, when the result is not
    truncated, a line is reported if and only if the query occurs in it as
    a substring, both put to lower case unless the search is case
    sensitive. *)
Theorem substring_reports_containing_lines (H : Host) (lines : list jsstring)
    (query : jsstring) (options : SearchOptions) (res : SearchResult)
    (k : nat) (line : jsstring) :
  regex options = false ->
  wholeWord options = false ->
  trim query <> [] ->
  foldCase H options (trim query) <> [] ->
  search H lines query options = Some res ->
  isTruncated res = false ->
  nth_error lines k = Some line ->
  (exists m, In m (matches res) /\ lineNumber m = Z.of_nat k + 1)
  <-> (exists p, occursAt (foldCase H options line)
                   (foldCase H options (trim query)) p).
Proof.
  intros Hre Hww Hq Hfold E Htrunc Hk.
  rewrite <- (hasOccurrence_literal H _ options line Hre Hww Hfold).
  assert (Hbounds : regex options = true -> match_in_bounds H) by congruence.
  split.
  - intros (m & Hin & Hm).
    destruct (reported_sound H lines query options res m Hbounds (fun _ => Hfold) Hq E Hin)
      as (k' & line' & Hk' & Hm' & Hocc).
    assert (k' = k) by lia; subst k'.
    rewrite Hk in Hk'; injection Hk' as <-. exact Hocc.
  - intros Hocc.
    exact (reported_complete H lines query options res k line Hbounds
             (fun _ => Hfold) Hq E Htrunc Hk Hocc).
Qed.

Lemma substring_reports_containing_lines_witness :
  (exists m,
     In m [ {| lineNumber := 2; occurrences := 1; preview := lit "Some Markdown text" |} ]
     /\ lineNumber m = Z.of_nat 1 + 1)
  <-> (exists p, occursAt (lit "some markdown text") (lit "markdown") p).
Proof.
  apply (substring_reports_containing_lines Ref.host
           [lit "# Title"; lit "Some Markdown text"] (lit " MARKDOWN ")
           (opts false false false)
           {| matches := [ {| lineNumber := 2; occurrences := 1;
                              preview := lit "Some Markdown text" |} ];
              totalOccurrences := 1; totalMatchedLines := 1;
              isTruncated := false; errorMessage := None |}
           1 (lit "Some Markdown text")).
  - reflexivity.
  - reflexivity.
  - discriminate.
  - discriminate.
  - vm_compute; reflexivity.
  - reflexivity.
  - reflexivity.
Defined.

(** ** Previews *)

(** X8. A preview is never empty and never longer than the match length
    (at least 1) plus 40 code units on each side and the two ellipses. *)
Theorem preview_is_bounded (line : jsstring) (index matchLength : Z) :
  1 <= len (createPreview line index matchLength) <= Z.max 1 matchLength + 86.
Proof. apply createPreview_length. Qed.

(** X9. The preview of a match that lies in the line shows the matched
    text, after at most 43 code units (40 of the line and an ellipsis) and
    followed by at most 43. *)
Theorem preview_shows_match (line : jsstring) (index matchLength : Z) :
  0 <= index -> 1 <= matchLength -> index + matchLength <= len line ->
  exists before after,
    createPreview line index matchLength
    = before ++ slice line index (index + matchLength) ++ after
    /\ len before <= 43 /\ len after <= 43.
Proof. apply createPreview_shows_span. Qed.

Lemma preview_shows_match_witness :
  exists before after,
    createPreview (repeat 45%N 60 ++ lit "needle" ++ repeat 45%N 60) 60 6
    = before
        ++ slice (repeat 45%N 60 ++ lit "needle" ++ repeat 45%N 60) 60 (60 + 6)
        ++ after
    /\ len before <= 43 /\ len after <= 43.
Proof.
  apply (preview_shows_match (repeat 45%N 60 ++ lit "needle" ++ repeat 45%N 60) 60 6).
  - lia.
  - lia.
  - vm_compute; discriminate.
Defined.

(** X10. In case sensitive substring mode the preview of every match
    contains the query (trimmed), whole words asked for or not. *)
Theorem preview_contains_query (H : Host) (lines : list jsstring)
    (query : jsstring) (options : SearchOptions) (res : SearchResult) :
  regex options = false ->
  caseSensitive options = true ->
  search H lines query options = Some res ->
  forall m, In m (matches res) ->
    exists before after, preview m = before ++ trim query ++ after.
Proof.
  intros Hre Hcs E m Hin.
  destruct (search_match_origin H lines query options res m E Hin) as (Hq & _).
  assert (Hfold : forall s, foldCase H options s = s)
    by (intros s; unfold foldCase; now rewrite Hcs).
  destruct (substring_match_facts H lines query options res m Hre
              ltac:(now rewrite Hfold) E Hin)
    as (k & line & first & _ & _ & Hpreview & Hocc & _).
  rewrite !Hfold in Hocc.
  destruct (occursAt_inside line (trim query) first Hq Hocc) as (Hfirst & Hend & _).
  assert (0 < len (trim query)).
  { destruct (Z.eq_dec (len (trim query)) 0) as [E0|E0];
      [apply len_nil_iff in E0; contradiction | pose proof (len_nonneg (trim query)); lia]. }
  destruct (createPreview_shows_span line first (len (trim query))
              ltac:(lia) ltac:(lia) ltac:(lia)) as (before & after & Hshow & _).
  exists before, after.
  now rewrite Hpreview, Hshow, (occursAt_slice line (trim query) first Hq Hocc).
Qed.

Lemma preview_contains_query_witness :
  exists before after,
    lit "..." ++ repeat 45%N 40 ++ lit "needle" ++ repeat 45%N 40 ++ lit "..."
    = before ++ trim (lit "needle") ++ after.
Proof.
  apply (preview_contains_query Ref.host
           [repeat 45%N 50 ++ lit "needle" ++ repeat 45%N 50; lit "hay"]
           (lit "needle") (opts true true false)
           {| matches := [ {| lineNumber := 1; occurrences := 1;
                              preview := lit "..." ++ repeat 45%N 40 ++ lit "needle" ++ repeat 45%N 40 ++ lit "..." |} ];
              totalOccurrences := 1; totalMatchedLines := 1;
              isTruncated := false; errorMessage := None |}
           eq_refl eq_refl)
    with (m := {| lineNumber := 1; occurrences := 1;
                  preview := lit "..." ++ repeat 45%N 40 ++ lit "needle" ++ repeat 45%N 40 ++ lit "..." |}).
  - vm_compute; reflexivity.
  - left; reflexivity.
Defined.

(** ** More on substring mode *)

(** X11. In substring mode, when the query and the lines keep every code
    unit in its place as they are put to lower case (or the search is case
    sensitive), every match is the entry of a line of the document in which
    the query occurs: at a position [first] the lower-cased line reads the
    lower-cased query, the span of the length of the query at [first] lies
    in the line, the preview is made at [first] and shows that span of the
    line, after at most 43 code units and followed by at most 43, the
    occurrences counted fit in the line side by side, and when whole words
    are asked for the code units of the line next to the span are no word
    characters. *)
Theorem substring_match_is_genuine (H : Host) (lines : list jsstring)
    (query : jsstring) (options : SearchOptions) (res : SearchResult) (m : LineMatch) :
  regex options = false ->
  foldCase H options (trim query) <> [] ->
  (forall s, In s (trim query :: lines) -> foldsInPlace H options s) ->
  search H lines query options = Some res ->
  In m (matches res) ->
  exists (k : nat) line first,
    nth_error lines k = Some line
    /\ lineNumber m = Z.of_nat k + 1
    /\ occursAt (foldCase H options line) (foldCase H options (trim query)) first
    /\ first + len (trim query) <= len line
    /\ preview m = createPreview line first (len (trim query))
    /\ (exists before after,
          preview m = before ++ slice line first (first + len (trim query)) ++ after
          /\ len before <= 43 /\ len after <= 43)
    /\ occurrences m * len (trim query) <= len line
    /\ (wholeWord options = true ->
        flankedByNonWord H line first (len (trim query))).
Proof.
  intros Hre Hfold Hplace E Hin.
  destruct (substring_match_facts H lines query options res m Hre Hfold E Hin)
    as (k & line & first & Hk & Hnumber & Hpreview & Hocc & Hfit & Hflank).
  pose proof (foldsInPlace_len H options (trim query) (Hplace _ (or_introl eq_refl)))
    as Hquery.
  pose proof (foldsInPlace_len H options line
                (Hplace _ (or_intror (nth_error_In lines k Hk)))) as Hline.
  destruct (occursAt_inside _ _ first Hfold Hocc) as (Hfirst & Hend & _).
  rewrite Hquery in Hfit, Hflank, Hend. rewrite Hline in Hfit, Hend.
  assert (Hlen : 1 <= len (trim query)).
  { destruct (Z.eq_dec (len (foldCase H options (trim query))) 0) as [E0|E0].
    - apply len_nil_iff in E0; contradiction.
    - pose proof (len_nonneg (foldCase H options (trim query))). lia. }
  exists k, line, first.
  split; [exact Hk|]. split; [exact Hnumber|]. split; [exact Hocc|].
  split; [exact Hend|]. split; [exact Hpreview|].
  split; [|split; [exact Hfit | exact Hflank]].
  rewrite Hpreview.
  exact (createPreview_shows_span line first (len (trim query)) Hfirst Hlen Hend).
Qed.

Lemma substring_match_is_genuine_witness :
  exists (k : nat) line first,
    nth_error [lit "no"; lit "A cat, a CAT and a cat."] k = Some line
    /\ 2 = Z.of_nat k + 1
    /\ occursAt (Ref.toLowerCase line) (lit "cat") first
    /\ first + len (trim (lit "Cat")) <= len line
    /\ lit "A cat, a CAT and a cat." = createPreview line first (len (trim (lit "Cat")))
    /\ (exists before after,
          lit "A cat, a CAT and a cat."
          = before ++ slice line first (first + len (trim (lit "Cat"))) ++ after
          /\ len before <= 43 /\ len after <= 43)
    /\ 3 * len (trim (lit "Cat")) <= len line
    /\ (true = true -> flankedByNonWord Ref.host line first (len (trim (lit "Cat")))).
Proof.
  apply (substring_match_is_genuine Ref.host [lit "no"; lit "A cat, a CAT and a cat."]
           (lit "Cat") (opts false true false)
           {| matches := [ {| lineNumber := 2; occurrences := 3;
                              preview := lit "A cat, a CAT and a cat." |} ];
              totalOccurrences := 3; totalMatchedLines := 1;
              isTruncated := false; errorMessage := None |}
           {| lineNumber := 2; occurrences := 3; preview := lit "A cat, a CAT and a cat." |}).
  - reflexivity.
  - discriminate.
  - intros s _. apply Ref_foldsInPlace.
  - vm_compute; reflexivity.
  - left; reflexivity.
Defined.

(** X12. Asking for whole words only removes matches: in substring mode a
    line reported with whole words is reported without them too (when that
    result is not truncated), with at least as many occurrences. *)
Theorem whole_word_reports_fewer (H : Host) (lines : list jsstring)
    (query : jsstring) (sensitive : bool) (whole plain : SearchResult) :
  foldCase H (opts sensitive false false) (trim query) <> [] ->
  search H lines query (opts sensitive true false) = Some whole ->
  search H lines query (opts sensitive false false) = Some plain ->
  isTruncated plain = false ->
  forall m, In m (matches whole) ->
    exists m', In m' (matches plain)
               /\ lineNumber m' = lineNumber m
               /\ occurrences m <= occurrences m'.
Proof.
  intros Hfold Ewhole Eplain Htrunc m Hin.
  destruct (search_match_origin H lines query _ whole m Ewhole Hin)
    as (Hq & scan & k & line & occ & first & mlen & Hscan & _ & Hk & Hs & Ho & ->).
  unfold scanOf in Hscan; cbn [regex opts] in Hscan; injection Hscan as <-.
  change (foldCase H (opts sensitive true false) (trim query))
    with (foldCase H (opts sensitive false false) (trim query)) in Hs.
  destruct (substringScanLine_spec H (trim query) _ (opts sensitive true false) line Hfold)
    as (ps & G & E).
  destruct (substringScanLine_spec H (trim query) _ (opts sensitive false false) line Hfold)
    as (ps' & G' & E').
  assert (ps' = ps) by (eapply GreedyScan_functional; eassumption); subst ps'.
  rewrite Hs in E; injection E as -> _ _.
  rewrite counted_all in E'.
  pose proof (filter_length_le
                (fun p => negb true
                          || hasWordBoundaries H line p
                               (len (foldCase H (opts sensitive false false) (trim query))))
                ps) as Hle.
  fold (counted H line (foldCase H (opts sensitive false false) (trim query)) true ps) in Hle.
  destruct (search_scanned H lines query _ plain Hq Eplain)
    as [(Hnone & _) | (scan' & Hscan' & Hrun')]; [discriminate|].
  unfold scanOf in Hscan'; cbn [regex opts] in Hscan'; injection Hscan' as <-.
  destruct (search_matches H lines query (opts sensitive false false) plain _ Hrun')
    as (_ & Hall & _).
  destruct (Hall Htrunc) as [Hms _].
  eexists; split; [|split].
  - rewrite Hms. apply matchedLines_In.
    exists k, line. do 3 eexists. split; [exact Hk|]. split; [exact E'|].
    split; [cbn [wholeWord opts] in Ho; lia | reflexivity].
  - simpl; lia.
  - cbn [occurrences wholeWord opts]. lia.
Qed.

Lemma whole_word_reports_fewer_witness :
  exists m',
    In m' [ {| lineNumber := 1; occurrences := 3; preview := lit "concatenate cat category" |};
            {| lineNumber := 2; occurrences := 1; preview := lit "scatter" |} ]
    /\ lineNumber m' = 1
    /\ 1 <= occurrences m'.
Proof.
  apply (whole_word_reports_fewer Ref.host
           [lit "concatenate cat category"; lit "scatter"] (lit "cat") false
           {| matches := [ {| lineNumber := 1; occurrences := 1;
                              preview := lit "concatenate cat category" |} ];
              totalOccurrences := 1; totalMatchedLines := 1;
              isTruncated := false; errorMessage := None |}
           {| matches := [ {| lineNumber := 1; occurrences := 3;
                              preview := lit "concatenate cat category" |};
                           {| lineNumber := 2; occurrences := 1; preview := lit "scatter" |} ];
              totalOccurrences := 4; totalMatchedLines := 2;
              isTruncated := false; errorMessage := None |})
    with (m := {| lineNumber := 1; occurrences := 1;
                  preview := lit "concatenate cat category" |}).
  - discriminate.
  - vm_compute; reflexivity.
  - vm_compute; reflexivity.
  - reflexivity.
  - left; reflexivity.
Defined.

(** ** The search as a whole *)

(** X13. [search] returns a result for every document, query and options:
    always in substring mode, and in regex mode as soon as the matches of
    the runtime lie in the line at or after the index the search starts
    from.  Both loops over a line come to an end. *)
Theorem search_always_returns (H : Host) (lines : list jsstring)
    (query : jsstring) (options : SearchOptions) :
  (regex options = true -> match_in_bounds H) ->
  exists res, search H lines query options = Some res.
Proof. apply search_returns. Qed.

Lemma search_always_returns_witness :
  exists res,
    search Ref.host [lit "aaa"; []; lit "b"] (lit "a*") (opts true true true) = Some res.
Proof.
  apply (search_always_returns Ref.host [lit "aaa"; []; lit "b"] (lit "a*")
           (opts true true true)).
  intros _; exact Ref_match_in_bounds.
Defined.

(** X14. A truncated result does not depend on the lines after the one
    where the search stopped: with any lines added at the end of the
    document the result is the same. *)
Theorem truncated_ignores_later_lines (H : Host) (lines more : list jsstring)
    (query : jsstring) (options : SearchOptions) (res : SearchResult) :
  search H lines query options = Some res ->
  isTruncated res = true ->
  search H (lines ++ more) query options = Some res.
Proof.
  intros E Htrunc.
  destruct (search_form H lines query options res E)
    as [[_ ->] | [(_ & _ & ->) | (Hq & scan & Hscan & Hrun)]];
    [discriminate | discriminate |].
  rewrite (search_scanOf H (lines ++ more) query options scan Hq Hscan).
  now apply forLines_truncated_more.
Qed.

Lemma truncated_ignores_later_lines_witness :
  search Ref.host (todoLines 501 ++ [lit "one more todo"]) (lit "todo")
    (opts true false false)
  = Some (truncatedResult
            (matchedLines
               (substringScanLine Ref.host (lit "todo") (lit "todo") (opts true false false))
               (todoLines 500) 0)).
Proof.
  apply (truncated_ignores_later_lines Ref.host (todoLines 501) [lit "one more todo"]).
  - vm_compute; reflexivity.
  - reflexivity.
Defined.

(** X15. White space around the query does not count: the query with white
    space put before and after it gives the result of the query alone. *)
Theorem surrounding_whitespace_is_ignored (H : Host) (lines : list jsstring)
    (before query after : jsstring) (options : SearchOptions) :
  Forall (fun c => isWhiteSpace c = true) before ->
  Forall (fun c => isWhiteSpace c = true) after ->
  search H lines (before ++ query ++ after) options = search H lines query options.
Proof.
  intros Hbefore Hafter; unfold search.
  now rewrite (trim_surrounded before query after Hbefore Hafter).
Qed.

Lemma surrounding_whitespace_is_ignored_witness :
  search Ref.host [lit "a b c"] ([9%N; 32%N] ++ lit "a b" ++ [160%N]) (opts true false false)
  = search Ref.host [lit "a b c"] (lit "a b") (opts true false false).
Proof.
  apply (surrounding_whitespace_is_ignored Ref.host [lit "a b c"] [9%N; 32%N]
           (lit "a b") [160%N]).
  - repeat constructor.
  - repeat constructor.
Defined.

(** X16. For the document the component is given, every match has a line
    number between 1 and the number of lines of the text, which is one more
    than its line feeds, and its preview contains no line feed. *)
Theorem document_matches_are_lines (H : Host) (markdown debouncedQuery : jsstring)
    (options : SearchOptions) (res : SearchResult) :
  searchDocument H markdown debouncedQuery options = Some res ->
  forall m, In m (matches res) ->
    1 <= lineNumber m <= 1 + Z.of_nat (count_occ N.eq_dec markdown 10%N)
    /\ ~ In 10%N (preview m).
Proof.
  unfold searchDocument; intros E m Hin.
  destruct (search_match_origin H _ _ _ res m E Hin)
    as (_ & scan & k & line & occ & first & mlen & _ & _ & Hk & _ & _ & ->).
  cbn [lineNumber preview].
  assert (Hlt : (k < length (splitLines markdown))%nat)
    by (apply nth_error_Some; rewrite Hk; discriminate).
  rewrite splitLines_count in Hlt.
  split; [lia|].
  intros Hlf. apply createPreview_units in Hlf as [Hlf | [Hlf | [_ Hlf]]].
  - pose proof (splitLines_no_line_feed markdown) as Hall.
    rewrite Forall_forall in Hall. exact (Hall line (nth_error_In _ _ Hk) Hlf).
  - discriminate.
  - simpl in Hlf. repeat destruct Hlf as [Hlf|Hlf]; discriminate || contradiction.
Qed.

Lemma document_matches_are_lines_witness :
  1 <= 3 <= 1 + Z.of_nat (count_occ N.eq_dec
                            (lit "# Notes" ++ [13%N; 10%N; 10%N] ++ lit "see the notes") 10%N)
  /\ ~ In 10%N (lit "see the notes").
Proof.
  apply (document_matches_are_lines Ref.host
           (lit "# Notes" ++ [13%N; 10%N; 10%N] ++ lit "see the notes")
           (lit "notes") (opts true false false)
           {| matches := [ {| lineNumber := 3; occurrences := 1;
                              preview := lit "see the notes" |} ];
              totalOccurrences := 1; totalMatchedLines := 1;
              isTruncated := false; errorMessage := None |})
    with (m := {| lineNumber := 3; occurrences := 1; preview := lit "see the notes" |}).
  - vm_compute; reflexivity.
  - left; reflexivity.
Defined.

(** ** More on regex mode *)

(** X17. In regex mode every match is the entry of a line of the document
    in which the compiled pattern matches: the preview is made at the
    leftmost match in the line, with its length (1 for an empty match), and
    the occurrences counted are at least 1 and at most one more than the
    line has code units. *)
Theorem regex_match_is_genuine (H : Host) (lines : list jsstring)
    (query : jsstring) (options : SearchOptions) (res : SearchResult) (m : LineMatch) :
  match_in_bounds H ->
  regex options = true ->
  search H lines query options = Some res ->
  In m (matches res) ->
  exists r (k : nat) line index text,
    RegExp_new H (regexSource (trim query) options) (regexFlags options) = Some r
    /\ nth_error lines k = Some line
    /\ lineNumber m = Z.of_nat k + 1
    /\ RegExp_match H r line 0 = Some (index, text)
    /\ preview m = createPreview line index (Z.max 1 (len text))
    /\ 1 <= occurrences m <= len line + 1.
Proof.
  intros bounds Hre E Hin.
  destruct (search_match_origin H lines query options res m E Hin)
    as (_ & scan & k & line & occ & first & mlen & Hscan & _ & Hk & Hs & Ho & ->).
  unfold scanOf in Hscan; rewrite Hre in Hscan.
  destruct (RegExp_new H _ _) as [r|] eqn:Hr; [|discriminate].
  injection Hscan as <-.
  destruct (regexScanLine_spec H bounds r line) as (ms & G & E').
  rewrite Hs in E'; injection E' as -> -> ->.
  destruct (RegexScan_bounded H bounds r line 0 ms ltac:(lia) G) as (Hlen & _).
  pose proof (len_nonneg line).
  inversion G as [c Hend | c index text ms' Hin' Ematch G']; subst; [contradiction|].
  exists r, k, line, index, text.
  split; [reflexivity|]. split; [exact Hk|]. split; [reflexivity|].
  split; [exact Ematch|]. split; [reflexivity|].
  cbn [occurrences]. cbn [length] in *. lia.
Qed.

Lemma regex_match_is_genuine_witness :
  exists r (k : nat) line index text,
    RegExp_new Ref.host (regexSource (trim (lit "b*")) (opts true false true))
      (regexFlags (opts true false true)) = Some r
    /\ nth_error [lit "abba"] k = Some line
    /\ 1 = Z.of_nat k + 1
    /\ RegExp_match Ref.host r line 0 = Some (index, text)
    /\ lit "abba" = createPreview line index (Z.max 1 (len text))
    /\ 1 <= 4 <= len line + 1.
Proof.
  apply (regex_match_is_genuine Ref.host [lit "abba"] (lit "b*") (opts true false true)
           {| matches := [ {| lineNumber := 1; occurrences := 4; preview := lit "abba" |} ];
              totalOccurrences := 4; totalMatchedLines := 1;
              isTruncated := false; errorMessage := None |}
           {| lineNumber := 1; occurrences := 4; preview := lit "abba" |}).
  - exact Ref_match_in_bounds.
  - reflexivity.
  - vm_compute; reflexivity.
  - left; reflexivity.
Defined.

(** ** Document keys *)

(** X18. The name at the start of a document key has between 1 and 40
    code units, all of [[a-z0-9]] or dashes, with no two dashes in a row;
    it starts with the first code unit of [[a-z0-9]] of the file name put
    to lower case, and is [md-file] when that has none.  So a key always
    starts with a letter or a digit. *)
Theorem document_key_name_is_safe (H : Host) (fileName now uuid : jsstring) :
  let name := normalizedName H fileName in
  1 <= len name <= 40
  /\ wellDashed name
  /\ match find isKeyUnit (toLowerCase H fileName) with
     | None => name = lit "md-file"
     | Some c => exists rest, name = c :: rest
     end
  /\ exists c rest,
       createDocumentKey H fileName now uuid = c :: rest /\ isKeyUnit c = true.
Proof.
  intros name.
  assert (Hcore : 1 <= len name <= 40
                  /\ wellDashed name
                  /\ match find isKeyUnit (toLowerCase H fileName) with
                     | None => name = lit "md-file"
                     | Some c => exists rest, name = c :: rest
                     end).
  { unfold name, normalizedName.
    pose proof (dashRuns_shape (toLowerCase H fileName)) as Hshape.
    pose proof (wellDashed_dashRuns (toLowerCase H fileName)) as Hwell.
    destruct (find isKeyUnit (toLowerCase H fileName)) as [c|] eqn:Efind.
    - apply find_some in Efind as [_ Hc].
      destruct Hshape as [r Hr].
      assert (Hstrip : exists r', stripEdgeDashes (dashRuns (toLowerCase H fileName)) = c :: r').
      { destruct (stripEdgeDashes_head c r Hc) as [H1 H2].
        destruct Hr as [-> | ->]; assumption. }
      destruct Hstrip as [r' Er'].
      apply stripEdgeDashes_wellDashed in Hwell. rewrite Er' in *.
      rewrite slice_prefix by lia.
      change (firstn (Z.to_nat 40) (c :: r')) with (c :: firstn 39 r').
      cbv beta iota.
      split; [|split; [|eauto]].
      + unfold len; cbn [length]. rewrite length_firstn. lia.
      + apply (wellDashed_prefix (c :: firstn 39 r') (skipn 39 r')).
        cbn [app]. now rewrite firstn_skipn.
    - assert (Hstrip : stripEdgeDashes (dashRuns (toLowerCase H fileName)) = []).
      { destruct Hshape as [-> | ->]; reflexivity. }
      rewrite Hstrip. cbn.
      split; [lia|]. split; [|reflexivity].
      repeat split; auto. }
  destruct Hcore as (Hlen & Hwell & Hhead).
  split; [exact Hlen|]. split; [exact Hwell|]. split; [exact Hhead|].
  unfold createDocumentKey; fold name.
  destruct (find isKeyUnit (toLowerCase H fileName)) as [c|] eqn:Efind.
  - apply find_some in Efind as [_ Hc]. destruct Hhead as [rest ->].
    eexists _, _; split; [reflexivity | exact Hc].
  - rewrite Hhead. eexists _, _; split; [reflexivity | reflexivity].
Qed.

(** ** The results area *)

(** X19. What the results area shows for the result of the search of the
    query it is given, on page 1: "no query yet" only for a query that is
    empty once trimmed; the hint to fix the pattern only in regex mode when
    the source that the code compiles (the query, or [\b(?:query)\b] for
    whole words) does not compile; "no matching lines" only when no line of
    the document has an occurrence; and otherwise a list that is not empty,
    the first matches, up to 100, each of a line that has an occurrence.
    An occurrence is one under the rule of the mode: in regex mode the
    compiled source matches somewhere in the line; in substring mode the
    scan from the left of the lower-cased line (of the line itself in a case
    sensitive search) has a candidate and, for whole words, one whose
    neighbouring code units in the line are no word characters.  For whole
    words in substring mode the lines are assumed to keep every code unit in
    its place when they are put to lower case. *)
Theorem results_view_is_honest (H : Host) (lines : list jsstring)
    (query : jsstring) (options : SearchOptions) (res : SearchResult) :
  (regex options = true -> match_in_bounds H) ->
  (regex options = false -> trim query <> [] ->
   foldCase H options (trim query) <> []) ->
  (regex options = false -> wholeWord options = true ->
   Forall (foldsInPlace H options) lines) ->
  search H lines query options = Some res ->
  match resultsView query res 1 with
  | NoQueryYet => trim query = []
  | FixThePattern =>
    regex options = true
    /\ RegExp_new H (regexSource (trim query) options) (regexFlags options) = None
  | NoMatchingLines =>
    forall line, In line lines -> ~ hasOccurrence H (trim query) options line
  | MatchList items buttons =>
    items <> []
    /\ items = firstn 100 (matches res)
    /\ forall m, In m items ->
         exists (k : nat) line,
           nth_error lines k = Some line
           /\ lineNumber m = Z.of_nat k + 1
           /\ hasOccurrence H (trim query) options line
  end.
Proof.
  intros Hbounds Hfold _ E; unfold resultsView.
  destruct (trim query) as [|c q] eqn:Eq; [reflexivity|].
  assert (Hq : trim query <> []) by (rewrite Eq; discriminate).
  rewrite <- Eq in *.
  assert (Hfold' : regex options = false -> foldCase H options (trim query) <> [])
    by (intros Hre; now apply Hfold).
  destruct (search_form H lines query options res E)
    as [[Hempty _] | [(_ & Hnone & ->) | (_ & scan & Hscan & Hrun)]];
    [contradiction | |].
  - cbn [errorMessage invalidPattern lit]. unfold scanOf in Hnone.
    destruct (regex options); [|discriminate].
    destruct (RegExp_new H _ _); [discriminate | now split].
  - assert (Herr : errorMessage res = None).
    { destruct (forLines_sound scan lines 0 [] res
                  ltac:(simpl; unfold MAX_MATCH_LINES; lia) Hrun) as [[-> _] | ->];
        reflexivity. }
    rewrite Herr.
    destruct (matches res) as [|m0 ms] eqn:Ems.
    + intros line Hline Hocc.
      apply In_nth_error in Hline as [k Hk].
      assert (Htrunc : isTruncated res = false).
      { destruct (search_matches H lines query options res scan Hrun) as (_ & _ & Hmany).
        destruct (isTruncated res); [|reflexivity].
        destruct (search_matches H lines query options res scan Hrun) as (Hms & _).
        specialize (Hmany eq_refl). rewrite Ems in Hms.
        symmetry in Hms. apply (f_equal (@length _)) in Hms.
        rewrite length_firstn in Hms. cbn [length] in Hms. lia. }
      destruct (reported_complete H lines query options res k line
                  Hbounds Hfold' Hq E Htrunc Hk Hocc) as (m & Hin & _).
      rewrite Ems in Hin; contradiction.
    + rewrite <- Ems. rewrite visibleMatches_page by lia.
      change (100 * (Z.to_nat 1 - 1))%nat with 0%nat. cbn [skipn].
      split; [rewrite Ems; discriminate|]. split; [reflexivity|].
      intros m Hin. apply In_firstn in Hin.
      now apply (reported_sound H lines query options res m Hbounds Hfold' Hq E).
Qed.

Lemma results_view_is_honest_witness :
  Forall (fun line => ~ hasOccurrence Ref.host (trim (lit "alpha"))
                        (opts false true false) line)
         [lit "The Alphabet"; lit "beta"].
Proof.
  apply Forall_forall.
  apply (results_view_is_honest Ref.host [lit "The Alphabet"; lit "beta"] (lit "alpha")
           (opts false true false)
           {| matches := []; totalOccurrences := 0; totalMatchedLines := 0;
              isTruncated := false; errorMessage := None |}).
  - discriminate.
  - intros _ _; discriminate.
  - intros _ _. apply Forall_forall; intros line _. apply Ref_foldsInPlace.
  - vm_compute; reflexivity.
Defined.

(** ** Text of ASCII *)

(** X20. Substring search of ASCII text does not depend on the runtime: for
    lines and a query made of code units below 128, two runtimes that agree
    with Unicode on ASCII (the lower case of ASCII text, the letters and the
    digits below 128) return the same result, whatever they do with other
    characters. *)
Theorem ascii_search_is_runtime_independent (H1 H2 : Host) (lines : list jsstring)
    (query : jsstring) (options : SearchOptions) :
  asciiFaithful H1 -> asciiFaithful H2 ->
  Forall isAscii lines -> isAscii query -> regex options = false ->
  search H1 lines query options = search H2 lines query options.
Proof.
  intros F1 F2 Hlines Hquery Hre.
  now rewrite (search_substring_ascii H1 lines query options F1 Hlines Hquery Hre),
              (search_substring_ascii H2 lines query options F2 Hlines Hquery Hre).
Qed.

Lemma ascii_search_is_runtime_independent_witness :
  search Ref.host [lit "concatenate cat category"; lit "A Cat."] (lit "cat")
    (opts false true false)
  = search Dotted.host [lit "concatenate cat category"; lit "A Cat."] (lit "cat")
      (opts false true false).
Proof.
  apply (ascii_search_is_runtime_independent Ref.host Dotted.host).
  - exact Ref_asciiFaithful.
  - exact Dotted_asciiFaithful.
  - constructor; [|constructor; [|constructor]]; apply isAscii_check; reflexivity.
  - apply isAscii_check; reflexivity.
  - reflexivity.
Defined.
